(** * directusapi: the generic Directus client and its field-path deriver

    A shallow embedding of [directus.go]: the reflective walk over the read
    model ([iterateFields], [structFields]), the lazily filled cache
    ([jsonFieldsR]) and the request builders ([Insert], [Create], [GetByID],
    [Update], [Set], [Delete], [Items], [CreateToken]). *)

From stdpp Require Import base option list strings pretty gmap.

(** ** Outcomes of Go code that may panic *)

(** [panic(v)] with a string value aborts the call; every other call returns. *)
Inductive result (A : Type) : Type :=
| Ok (a : A)
| Panic (v : string).
Arguments Ok {A} a.
Arguments Panic {A} v.

Definition isOk {A : Type} (r : result A) : bool :=
  match r with
  | Ok _ => true
  | Panic _ => false
  end.

(** ** Type descriptors, as [reflect] shows them *)

Module reflect.

(** [reflect.Kind]. *)
Inductive Kind : Type :=
| Invalid | Bool | Int | Int8 | Int16 | Int32 | Int64
| Uint | Uint8 | Uint16 | Uint32 | Uint64 | Uintptr
| Float32 | Float64 | Complex64 | Complex128
| Array | Chan | Func | Interface | Map | Pointer | Slice | String | Struct
| UnsafePointer.

(** [Kind.String()]: the table of package [reflect]. *)
Definition kindString (k : Kind) : string :=
  match k with
  | Invalid => "invalid" | Bool => "bool"
  | Int => "int" | Int8 => "int8" | Int16 => "int16" | Int32 => "int32"
  | Int64 => "int64"
  | Uint => "uint" | Uint8 => "uint8" | Uint16 => "uint16"
  | Uint32 => "uint32" | Uint64 => "uint64" | Uintptr => "uintptr"
  | Float32 => "float32" | Float64 => "float64"
  | Complex64 => "complex64" | Complex128 => "complex128"
  | Array => "array" | Chan => "chan" | Func => "func"
  | Interface => "interface" | Map => "map" | Pointer => "ptr"
  | Slice => "slice" | String => "string" | Struct => "struct"
  | UnsafePointer => "unsafe.Pointer"
  end.

End reflect.

(** The kinds of types that have neither elements nor fields. *)
Inductive Basic : Type :=
| BBool | BInt | BInt8 | BInt16 | BInt32 | BInt64
| BUint | BUint8 | BUint16 | BUint32 | BUint64 | BUintptr
| BFloat32 | BFloat64 | BComplex64 | BComplex128
| BString | BUnsafePointer.

Definition basicKind (b : Basic) : reflect.Kind :=
  match b with
  | BBool => reflect.Bool
  | BInt => reflect.Int
  | BInt8 => reflect.Int8
  | BInt16 => reflect.Int16
  | BInt32 => reflect.Int32
  | BInt64 => reflect.Int64
  | BUint => reflect.Uint
  | BUint8 => reflect.Uint8
  | BUint16 => reflect.Uint16
  | BUint32 => reflect.Uint32
  | BUint64 => reflect.Uint64
  | BUintptr => reflect.Uintptr
  | BFloat32 => reflect.Float32
  | BFloat64 => reflect.Float64
  | BComplex64 => reflect.Complex64
  | BComplex128 => reflect.Complex128
  | BString => reflect.String
  | BUnsafePointer => reflect.UnsafePointer
  end.

(** A struct tag, parsed: its [key:"value"] pairs in the order written. *)
Definition StructTag : Type := list (string * string).

(** [Tag.Lookup(key)]: the value of the first pair under [key], and whether
    there is one.  A tag that is present with an empty value is found. *)
Fixpoint Lookup (tag : StructTag) (key : string) : option string :=
  match tag with
  | [] => None
  | (k, v) :: rest => if String.eqb k key then Some v else Lookup rest key
  end.

(** The method of interface [isOpt] that the deriver calls: [fields(prefix)],
    run on the zero value that [reflect.New] allocates.  It may panic. *)
Definition isOpt : Type := string -> result (list string).

(** [reflect.Type], with what [structFields] asks of a struct type:
    - [timeLike]: [Type.ConvertibleTo(reflect.TypeOf(t))] for [var t Time],
      the type [Time] being declared outside [directus.go];
    - [opt]: [Some m] when the type implements [isOpt], [m] being its
      [fields] method; [None] when it does not.
    A descriptor is a finite tree: a type that contains itself (a struct
    with a slice of itself) has none.  The walk keeps no record of the
    types it has seen and does not return on such a type. *)
Inductive rtype : Type :=
| TBasic (b : Basic)
| TArray (len : N) (elem : rtype)
| TChan (elem : rtype)
| TFunc
| TInterface
| TMap (key elem : rtype)
| TPointer (elem : rtype)
| TSlice (elem : rtype)
| TStruct (timeLike : bool) (opt : option isOpt) (fs : list StructField)
with StructField : Type :=
| mkField (Name : string) (Tag : StructTag) (Type_ : rtype).

Definition Name (f : StructField) : string :=
  match f with mkField n _ _ => n end.
Definition Tag (f : StructField) : StructTag :=
  match f with mkField _ t _ => t end.
Definition Type_ (f : StructField) : rtype :=
  match f with mkField _ _ ty => ty end.

(** [Type.Kind()]. *)
Definition kindOf (t : rtype) : reflect.Kind :=
  match t with
  | TBasic b => basicKind b
  | TArray _ _ => reflect.Array
  | TChan _ => reflect.Chan
  | TFunc => reflect.Func
  | TInterface => reflect.Interface
  | TMap _ _ => reflect.Map
  | TPointer _ => reflect.Pointer
  | TSlice _ => reflect.Slice
  | TStruct _ _ _ => reflect.Struct
  end.

(** The kinds of the third [case] of [structFields], [reflect.Map] apart. *)
Definition scalarKind (k : reflect.Kind) : bool :=
  match k with
  | reflect.Bool
  | reflect.Int | reflect.Int8 | reflect.Int16 | reflect.Int32 | reflect.Int64
  | reflect.Uint | reflect.Uint8 | reflect.Uint16 | reflect.Uint32
  | reflect.Uint64 | reflect.Uintptr
  | reflect.Float32 | reflect.Float64 | reflect.String => true
  | _ => false
  end.

(** The kinds that [structFields] has a case for. *)
Definition implementedKind (k : reflect.Kind) : bool :=
  match k with
  | reflect.Struct | reflect.Slice | reflect.Map | reflect.Pointer => true
  | _ => scalarKind k
  end.

(** The field types for which [structFields] yields the field's own path:
    the scalars, maps, and slices of anything but structs. *)
Definition leafType (t : rtype) : bool :=
  match t with
  | TMap _ _ => true
  | TSlice (TStruct _ _ _) => false
  | TSlice _ => true
  | _ => scalarKind (kindOf t)
  end.

(** A field whose type is a time-like struct that is no optional wrapper:
    the [isTime] case of [structFields]. *)
Definition timeField (f : StructField) : bool :=
  match Type_ f with
  | TStruct true None _ => true
  | _ => false
  end.

(** ** The field-path deriver *)

(** [p := prefix; if p != "" { p = p + "." + tagVal } else { p = tagVal }],
    which is also [v := tagVal; if prefix != "" { v = prefix + "." + tagVal }]. *)
Definition scoped (prefix tagVal : string) : string :=
  if String.eqb prefix "" then tagVal else prefix +:+ "." +:+ tagVal.

(** The loop of [iterateFields] on its own: [fields = append(fields,
    step(f)...)] for each field in declaration order, a panic of the step
    ending it. *)
Definition appendFields (step : StructField -> result (list string))
  : list StructField -> list string -> result (list string) :=
  fix loop (fs : list StructField) (fields : list string) :=
    match fs with
    | [] => Ok fields
    | f :: rest =>
        match step f with
        | Ok l => loop rest (fields ++ l)
        | Panic v => Panic v
        end
    end.

(** The constant [tagName] (the key of the rename tag) and reflect's
    [Type.String()] are declared outside [directus.go]. *)
Class Reflection : Type := {
  tagName : string;
  typeString : rtype -> string
}.

Section Deriver.

Context {reflection : Reflection}.

(** The first lines of [structFields]: the tag's value when the tag is there,
    else the field's name. *)
Definition tagVal (f : StructField) : string :=
  match Lookup (Tag f) tagName with
  | Some v => v
  | None => Name f
  end.

Fixpoint iterateFields (t : rtype) (prefix : string) {struct t}
  : result (list string) :=
  match t with
  | TStruct _ _ fs =>
      (fix loop (fs : list StructField) (fields : list string) :=
         match fs with
         | [] => Ok fields
         | f :: rest =>
             match structFields f prefix with
             | Ok l => loop rest (fields ++ l)
             | Panic v => Panic v
             end
         end) fs []
  | _ => Panic ("reflect: NumField of non-struct type " +:+ typeString t)
  end
with structFields (f : StructField) (prefix : string) {struct f}
  : result (list string) :=
  match f with
  | mkField name tag ty =>
      let tagVal := match Lookup tag tagName with
                    | Some v => v
                    | None => name
                    end in
      match ty with
      | TStruct isTime isOptional _ =>
          match isOptional with
          | Some val =>
              if String.eqb prefix "" then val tagVal
              else val (prefix +:+ "." +:+ tagVal)
          | None =>
              if isTime then Ok [prefix]
              else
                let p := if negb (String.eqb prefix "")
                         then prefix +:+ "." +:+ tagVal else tagVal in
                iterateFields ty p
          end
      | TSlice elem =>
          let p := if negb (String.eqb prefix "")
                   then prefix +:+ "." +:+ tagVal else tagVal in
          match elem with
          | TStruct _ _ _ => iterateFields elem p
          | _ => Ok [p]
          end
      | TBasic (BBool | BInt | BInt8 | BInt16 | BInt32 | BInt64
               | BUint | BUint8 | BUint16 | BUint32 | BUint64 | BUintptr
               | BFloat32 | BFloat64 | BString)
      | TMap _ _ =>
          let v := if negb (String.eqb prefix "")
                   then prefix +:+ "." +:+ tagVal else tagVal in
          Ok [v]
      | TPointer elem =>
          let t := typeString elem in
          Panic (name +:+ "(" +:+ t +:+ "," +:+ prefix
                 +:+ "): pointer is not supported, use directus.Optional instead")
      | _ => Panic (reflect.kindString (kindOf ty) +:+ " not implemented")
      end
  end.

End Deriver.

(** ** The client *)

Inductive Version : Type := V8 | V9.

Module http.
Definition MethodGet : string := "GET".
Definition MethodPost : string := "POST".
Definition MethodPatch : string := "PATCH".
Definition MethodDelete : string := "DELETE".
Definition StatusOK : Z := 200.
Definition StatusNoContent : Z := 204.
End http.

(** [strings.Join(elems, sep)]. *)
Fixpoint Join (elems : list string) (sep : string) : string :=
  match elems with
  | [] => ""
  | x :: rest =>
      match rest with
      | [] => x
      | _ :: _ => x +:+ sep +:+ Join rest sep
      end
  end.

(** [API[R, W, PK]].  A nil slice is [None]; [HTTPClient] is nil or the
    address of a client.  The field [Version] is [Version_] here, the type
    having the name. *)
Record API : Type := mkAPI {
  Scheme : string;
  Host : string;
  Namespace : string;
  CollectionName : string;
  BearerToken : string;
  HTTPClient : option N;
  queryFields : option (list string);
  debug : bool;
  Version_ : Version
}.

(** [d.queryFields = fields], on the [API] that [d] points to. *)
Definition set_queryFields (d : API) (fields : option (list string)) : API :=
  {| Scheme := Scheme d; Host := Host d; Namespace := Namespace d;
     CollectionName := CollectionName d; BearerToken := BearerToken d;
     HTTPClient := HTTPClient d; queryFields := fields; debug := debug d;
     Version_ := Version_ d |}.

(** The type parameters of [API] and what the client takes from outside
    [directus.go] for them:
    - [emptyR] is the zero value of [R] ([var empty R]);
    - [typeOfR] is [reflect.TypeOf(x)] for [var x R], nil ([None]) when [R]
      is an interface type;
    - [fmtPK] prints a primary key as the verb [%v] does;
    - [asKeyValue] is the method of [query]; the map it returns may be nil. *)
Class Collection : Type := {
  R : Type;
  W : Type;
  PK : Type;
  any : Type;
  Context_ : Type;
  query : Type;
  emptyR : R;
  typeOfR : option rtype;
  fmtPK : PK -> string;
  asKeyValue : query -> Version -> option (gmap string string)
}.

(** The errors of an operation: [fmt.Errorf("...: %w", err)] wraps the error
    of the request, which the spec gives three kinds. *)
Inductive error : Type :=
| TransportFailure (msg : string)
| UnexpectedStatus (actual expected : Z)
| DecodingFailure (payload : string)
| Errorf (msg : string) (err : error).

Section Client.

Context {reflection : Reflection} {collection : Collection}.

(** The [body] of a [request] has type [any]; these are the values the
    operations put there. *)
Inductive body : Type :=
| nilBody
| credentials (email password : string)
| item (w : W)
| partials (m : gmap string any).

(** [request], by the positions of its literal: context, method, URL, query
    parameters (a map, nil being [None]) and body. *)
Record request : Type := mkRequest {
  ctx : Context_;
  method : string;
  url : string;
  params : option (gmap string string);
  reqBody : body
}.

(** What a run leaves behind: a reflective derivation of the field paths,
    or a request handed to [executeRequest]. *)
Inductive event : Type :=
| Derived
| Executed (req : request) (expectedStatus : Z).

Definition trace : Type := list event.

Definition isDerived (e : event) : bool :=
  match e with
  | Derived => true
  | Executed _ _ => false
  end.

(** How many times the field paths were derived. *)
Definition derivations (tr : trace) : nat :=
  length (List.filter isDerived tr).

(** A call runs against the trace so far, and returns or panics. *)
Definition M (A : Type) : Type := trace -> result (A * trace).

Definition ret {A : Type} (a : A) : M A := fun tr => Ok (a, tr).

Definition bindM {A B : Type} (c : M A) (k : A -> M B) : M B :=
  fun tr =>
    match c tr with
    | Ok (a, tr') => k a tr'
    | Panic v => Panic v
    end.

Definition panic {A : Type} (v : string) : M A := fun _ => Panic v.

Definition lift {A : Type} (r : result A) : M A :=
  fun tr =>
    match r with
    | Ok a => Ok (a, tr)
    | Panic v => Panic v
    end.

Definition log (e : event) : M unit := fun tr => Ok (tt, tr ++ [e]).

End Client.

Notation "'let*' x := c1 'in' c2" := (bindM c1 (fun x => c2))
  (at level 10, x pattern, c1 at level 100, c2 at level 200).

(** A JSON decoder writing through a pointer: from the payload and what
    the pointer holds, what it holds afterwards and whether decoding
    succeeded.  A decoder that fails may have written a part already. *)
Definition decoder (T : Type) : Type := string -> T -> T * bool.

(** The server and the JSON decoder, as [executeRequest] meets them: the
    transport fails with a message or answers with a status and a payload,
    which may depend on the requests made before; a decoder reads the [data]
    of the envelope into the response body, or fails part of the way. *)
Class Transport `{Collection} : Type := {
  roundTrip : trace -> API -> request -> string + Z * string;
  decodeR : decoder R;
  decodeRs : decoder (option (list R));
  decodeToken : decoder string
}.

Section Operations.

Context {reflection : Reflection} {collection : Collection}
        {transport : Transport}.

(** Modelled from the spec: [executeRequest] is declared outside
    [directus.go].  The spec has it execute the request, check the expected
    status code and decode the [data] of the envelope into [respBody]; a
    transport failure, an unexpected status and a decoding failure are
    returned as errors.  [respBody] is passed by address and is returned as
    the call leaves it: untouched when the request is not decoded, and as
    the decoder left it otherwise, also when decoding fails. *)
Definition executeRequest {T : Type} (decode : decoder T) (d : API)
    (req : request) (expectedStatus : Z) (respBody : T)
  : M (option error * T) :=
  fun tr =>
    let tr' := tr ++ [Executed req expectedStatus] in
    match roundTrip tr d req with
    | inl msg => Ok ((Some (TransportFailure msg), respBody), tr')
    | inr (status, payload) =>
        if Z.eqb status expectedStatus then
          match decode payload respBody with
          | (data, true) => Ok ((None, data), tr')
          | (data, false) => Ok ((Some (DecodingFailure payload), data), tr')
          end
        else Ok ((Some (UnexpectedStatus status expectedStatus), respBody), tr')
    end.

(** [jsonFieldsR] has a pointer receiver: it returns the paths and the [API]
    it points to as the call leaves it. *)
Definition jsonFieldsR (d : API) : M (list string * API) :=
  match queryFields d with
  | None =>
      match typeOfR with
      | Some t =>
          let* fields := lift (iterateFields t "") in
          let* _ := log Derived in
          ret (fields, set_queryFields d (Some fields))
      | None =>
          panic "runtime error: invalid memory address or nil pointer dereference"
      end
  | Some fields => ret (fields, d)
  end.

(** The operations have value receivers: [d] is the method's own copy of
    the caller's [API], [d.jsonFieldsR()] runs on the address of that copy,
    and the copy ends with the call.  The caller's [API] is not written. *)

Definition CreateToken (d : API) (ctx : Context_) (email password : string)
  : M (string * option error) :=
  let u := Scheme d +:+ "://" +:+ Host d +:+ "/" +:+ Namespace d
           +:+ "/auth/authenticate" in
  let body := credentials email password in
  let req := mkRequest ctx http.MethodPost u None body in
  let* (err, respBody) := executeRequest decodeToken d req http.StatusOK "" in
  match err with
  | Some err => ret ("", Some (Errorf "execute create token request" err))
  | None => ret (respBody, None)
  end.

Definition Insert (d : API) (ctx : Context_) (item_ : W)
  : M (R * option error) :=
  let empty := emptyR in
  let u := Scheme d +:+ "://" +:+ Host d +:+ "/" +:+ Namespace d
           +:+ "/items/" +:+ CollectionName d in
  let* (fields, d) := jsonFieldsR d in
  let req := mkRequest ctx http.MethodPost u
               (Some {[ "fields" := Join fields "," ]}) (item item_) in
  let* (err, respBody) := executeRequest decodeR d req http.StatusOK emptyR in
  match err with
  | Some err => ret (empty, Some (Errorf "execute insert request" err))
  | None => ret (respBody, None)
  end.

Definition Create (d : API) (ctx : Context_) (partials_ : gmap string any)
  : M (R * option error) :=
  let empty := emptyR in
  let u := Scheme d +:+ "://" +:+ Host d +:+ "/" +:+ Namespace d
           +:+ "/items/" +:+ CollectionName d in
  let* (fields, d) := jsonFieldsR d in
  let req := mkRequest ctx http.MethodPost u
               (Some {[ "fields" := Join fields "," ]}) (partials partials_) in
  let* (err, respBody) := executeRequest decodeR d req http.StatusOK emptyR in
  match err with
  | Some err => ret (empty, Some (Errorf "execute create request" err))
  | None => ret (respBody, None)
  end.

Definition GetByID (d : API) (ctx : Context_) (id : PK)
  : M (R * option error) :=
  let u := Scheme d +:+ "://" +:+ Host d +:+ "/" +:+ Namespace d
           +:+ "/items/" +:+ CollectionName d +:+ "/" +:+ fmtPK id in
  let* (fields, d) := jsonFieldsR d in
  let req := mkRequest ctx http.MethodGet u
               (Some {[ "fields" := Join fields "," ]}) nilBody in
  let empty := emptyR in
  let* (err, respBody) := executeRequest decodeR d req http.StatusOK emptyR in
  match err with
  | Some err => ret (empty, Some (Errorf "execute get by id request" err))
  | None => ret (respBody, None)
  end.

Definition Update (d : API) (ctx : Context_) (id : PK)
    (partials_ : gmap string any) : M (R * option error) :=
  let empty := emptyR in
  let u := Scheme d +:+ "://" +:+ Host d +:+ "/" +:+ Namespace d
           +:+ "/items/" +:+ CollectionName d +:+ "/" +:+ fmtPK id in
  let* (fields, d) := jsonFieldsR d in
  let req := mkRequest ctx http.MethodPatch u
               (Some {[ "fields" := Join fields "," ]}) (partials partials_) in
  let* (err, respBody) := executeRequest decodeR d req http.StatusOK emptyR in
  match err with
  | Some err => ret (empty, Some (Errorf "execute update request" err))
  | None => ret (respBody, None)
  end.

Definition Set_ (d : API) (ctx : Context_) (id : PK) (item_ : W)
  : M (R * option error) :=
  let empty := emptyR in
  let u := Scheme d +:+ "://" +:+ Host d +:+ "/" +:+ Namespace d
           +:+ "/items/" +:+ CollectionName d +:+ "/" +:+ fmtPK id in
  let* (fields, d) := jsonFieldsR d in
  let req := mkRequest ctx http.MethodPatch u
               (Some {[ "fields" := Join fields "," ]}) (item item_) in
  let* (err, respBody) := executeRequest decodeR d req http.StatusOK emptyR in
  match err with
  | Some err => ret (empty, Some (Errorf "execute set request" err))
  | None => ret (respBody, None)
  end.

Definition Delete (d : API) (ctx : Context_) (id : PK) : M (option error) :=
  let u := Scheme d +:+ "://" +:+ Host d +:+ "/" +:+ Namespace d
           +:+ "/items/" +:+ CollectionName d +:+ "/" +:+ fmtPK id in
  let req := mkRequest ctx http.MethodDelete u None nilBody in
  let* (err, _) :=
    executeRequest (fun _ respBody => (respBody, true)) d req
      http.StatusNoContent tt in
  match err with
  | Some err => ret (Some (Errorf "execute delete request" err))
  | None => ret None
  end.

(** The first lines of [Items], up to the [request] literal: the request
    that [Items] hands to [executeRequest], and the method's [d] by then.
    The right-hand side of [qv["fields"] = ...] is evaluated before the
    assignment, which panics on a nil map. *)
Definition ItemsRequest (d : API) (ctx : Context_) (q : query)
  : M (request * API) :=
  let u := Scheme d +:+ "://" +:+ Host d +:+ "/" +:+ Namespace d
           +:+ "/items/" +:+ CollectionName d in
  let qv := asKeyValue q (Version_ d) in
  let* (fields, d) := jsonFieldsR d in
  match qv with
  | None => panic "assignment to entry in nil map"
  | Some qv =>
      let qv := <[ "fields" := Join fields "," ]> qv in
      ret (mkRequest ctx http.MethodGet u (Some qv) nilBody, d)
  end.

Definition Items (d : API) (ctx : Context_) (q : query)
  : M (option (list R) * option error) :=
  let* (req, d) := ItemsRequest d ctx q in
  let* (err, respBody) := executeRequest decodeRs d req http.StatusOK None in
  match err with
  | Some err => ret (None, Some (Errorf "execute items request" err))
  | None => ret (respBody, None)
  end.

End Operations.

(** ** Properties of a run, as the theorems state them *)

Section Outcomes.

Context {reflection : Reflection} {collection : Collection}
        {transport : Transport}.

(** The paths a call of [jsonFieldsR] returns, or the value it panics with. *)
Definition pathsOf (x : result (list string * API * trace))
  : result (list string) :=
  match x with
  | Ok (fields, _, _) => Ok fields
  | Panic v => Panic v
  end.

(** What [jsonFieldsR] computes when the cache is nil. *)
Definition derive : result (list string) :=
  match typeOfR with
  | Some t => iterateFields t ""
  | None =>
      Panic "runtime error: invalid memory address or nil pointer dereference"
  end.

(** The cache of a client is nil or holds the paths derived for [R]:
    [jsonFieldsR] is the only writer of [queryFields]. *)
Definition cacheValid (d : API) : Prop :=
  match queryFields d with
  | None => True
  | Some fields => derive = Ok fields
  end.

(** An operation that returns a non-nil error returns [zero] with it. *)
Definition zeroOnError {A : Type} (zero : A)
    (x : result (A * option error * trace)) : Prop :=
  forall a err tr', x = Ok (a, Some err, tr') -> a = zero.

(** An operation that returns a nil error has executed a request, the last
    of the trace, that the transport answered with the expected status. *)
Definition okOnlyOnStatus {A : Type} (expectedStatus : Z)
    (x : result (A * option error * trace)) : Prop :=
  forall a tr', x = Ok (a, None, tr') ->
    exists tr0 d' req payload,
      tr' = tr0 ++ [Executed req expectedStatus]
      /\ roundTrip tr0 d' req = inr (expectedStatus, payload).

(** Both, for an operation that expects [http.StatusOK]. *)
Definition errorContract {A : Type} (zero : A)
    (x : result (A * option error * trace)) : Prop :=
  zeroOnError zero x /\ okOnlyOnStatus http.StatusOK x.

End Outcomes.

(** ** A collection to run the client on *)

Module Sample.

(** Type strings for the samples.  A descriptor holds no type name: a
    struct type, which [reflect] prints by its name, is printed as
    [struct {...}], and the samples print no struct type. *)
Fixpoint typeStringOf (t : rtype) : string :=
  match t with
  | TBasic b => reflect.kindString (basicKind b)
  | TArray len elem => "[" +:+ pretty len +:+ "]" +:+ typeStringOf elem
  | TChan elem => "chan " +:+ typeStringOf elem
  | TFunc => "func()"
  | TInterface => "interface {}"
  | TMap key elem =>
      "map[" +:+ typeStringOf key +:+ "]" +:+ typeStringOf elem
  | TPointer elem => "*" +:+ typeStringOf elem
  | TSlice elem => "[]" +:+ typeStringOf elem
  | TStruct _ _ _ => "struct {...}"
  end.

#[export] Instance reflection : Reflection :=
  {| tagName := "directus"; typeString := typeStringOf |}.

(** A time-like struct: [type Time struct { wall uint64; ext int64 }]. *)
Definition Time : rtype :=
  TStruct true None
    [mkField "wall" [] (TBasic BUint64); mkField "ext" [] (TBasic BInt64)].

(** An optional wrapper that asks for the field itself. *)
Definition Optional : rtype :=
  TStruct false (Some (fun prefix => Ok [prefix]))
    [mkField "value" [] (TBasic BString); mkField "set" [] (TBasic BBool)].

Definition AuthorFields : list StructField :=
  [mkField "ID" [("directus", "id")] (TBasic BInt);
   mkField "Name" [("json", "name")] (TBasic BString)].

Definition Author : rtype := TStruct false None AuthorFields.

(** [[
type Article struct {
    ID        int    `json:"id" directus:"id"`
    Title     string
    Author    Author
    CreatedAt Time   `directus:"created_at"`
}
]] *)
Definition Article : rtype :=
  TStruct false None
    [mkField "ID" [("json", "id"); ("directus", "id")] (TBasic BInt);
     mkField "Title" [] (TBasic BString);
     mkField "Author" [] Author;
     mkField "CreatedAt" [("directus", "created_at")] Time].

Definition ScalarFields : list StructField :=
  [mkField "ID" [("directus", "id")] (TBasic BInt64);
   mkField "Title" [] (TBasic BString);
   mkField "Score" [("directus", "")] (TBasic BFloat64);
   mkField "Live" [("json", "live")] (TBasic BBool)].

Definition Scalars : rtype := TStruct false None ScalarFields.

(** Read models are rendered as strings, primary keys are integers, and a
    query is the list of its parameters. *)
#[export] Instance collection : Collection :=
  {| R := string; W := string; PK := Z; any := string; Context_ := unit;
     query := list (string * string);
     emptyR := "";
     typeOfR := Some Scalars;
     fmtPK := pretty;
     asKeyValue := fun q _ => Some (list_to_map q) |}.

(** A decoder that takes the payload for the value, and fails on a
    payload that was cut short, having written what there was of it. *)
Definition decodeText : decoder string :=
  fun payload _ => (payload, negb (String.eqb payload "{data:")).

(** A server that answers 200 to every [POST], 200 with a payload cut short
    to every [PATCH], and 404 to everything else. *)
#[export] Instance transport : Transport :=
  {| roundTrip := fun _ _ req =>
       if String.eqb (method req) http.MethodPost
       then inr (200%Z, "{}")
       else if String.eqb (method req) http.MethodPatch
            then inr (200%Z, "{data:")
            else inr (404%Z, "");
     decodeR := decodeText;
     decodeRs := fun payload _ =>
       (Some [payload], negb (String.eqb payload "{data:"));
     decodeToken := decodeText |}.

Definition client : API :=
  {| Scheme := "https"; Host := "cms.example.org"; Namespace := "content";
     CollectionName := "articles"; BearerToken := "token";
     HTTPClient := None; queryFields := None; debug := false;
     Version_ := V8 |}.

(** Another client of the same collection, its cache filled. *)
Definition cachedClient : API :=
  {| Scheme := "http"; Host := "localhost:8055"; Namespace := "_";
     CollectionName := "articles"; BearerToken := "";
     HTTPClient := Some 1%N;
     queryFields := Some ["id"; "Title"; ""; "Live"]; debug := true;
     Version_ := V9 |}.

(** A query with a page size and a ["fields"] entry of its own. *)
Definition pageQuery : list (string * string) :=
  [("limit", "5"); ("fields", "zzz")].

End Sample.

(** ** Shapes of read models *)

(** What [iterateFields] and [structFields] reach of a type: the fields of
    a struct, the fields of a plain struct field's type and the fields of a
    slice field's struct element type; neither the fields of a time-like
    struct field nor those of an optional wrapper. *)

(** No field that is reached is a pointer or of a kind without a case. *)
Fixpoint supportedStruct (t : rtype) : bool :=
  match t with
  | TStruct _ _ fs =>
      (fix all (fs : list StructField) : bool :=
         match fs with
         | [] => true
         | f :: rest => supportedField f && all rest
         end) fs
  | _ => false
  end
with supportedField (f : StructField) : bool :=
  match f with
  | mkField _ _ ty =>
      match ty with
      | TStruct _ (Some _) _ => true
      | TStruct true None _ => true
      | TStruct false None _ => supportedStruct ty
      | TSlice elem =>
          match elem with
          | TStruct _ _ _ => supportedStruct elem
          | _ => true
          end
      | TMap _ _ => true
      | _ => scalarKind (kindOf ty)
      end
  end.

(** Every optional wrapper that is reached has a [fields] method with the
    property [P]. *)
Fixpoint wrappersSatisfy (P : isOpt -> Prop) (t : rtype) : Prop :=
  match t with
  | TStruct _ _ fs =>
      (fix all (fs : list StructField) : Prop :=
         match fs with
         | [] => True
         | f :: rest => fieldWrappersSatisfy P f /\ all rest
         end) fs
  | _ => True
  end
with fieldWrappersSatisfy (P : isOpt -> Prop) (f : StructField) : Prop :=
  match f with
  | mkField _ _ ty =>
      match ty with
      | TStruct _ (Some val) _ => P val
      | TStruct true None _ => True
      | TStruct false None _ => wrappersSatisfy P ty
      | TSlice elem =>
          match elem with
          | TStruct _ _ _ => wrappersSatisfy P elem
          | _ => True
          end
      | _ => True
      end
  end.

(** [path] is [prefix] itself or lies below it. *)
Definition under (prefix path : string) : Prop :=
  path = prefix \/ exists rest, path = scoped prefix rest.

(** The path [s] seen from one level up, below [outer]. *)
Definition below (outer s : string) : string := outer +:+ "." +:+ s.

(** A [fields] method whose paths stay under the prefix it is given. *)
Definition scoping (val : isOpt) : Prop :=
  forall prefix l, val prefix = Ok l -> Forall (under prefix) l.

(** A [fields] method that follows its prefix one level down. *)
Definition relocating (val : isOpt) : Prop :=
  forall outer prefix l,
    val prefix = Ok l -> val (below outer prefix) = Ok (map (below outer) l).

(** Induction over a type and the fields of its structs. *)
Section rtype_induction.

Variable P : rtype -> Prop.
Variable Q : StructField -> Prop.
Hypothesis HBasic : forall b, P (TBasic b).
Hypothesis HArray : forall len elem, P elem -> P (TArray len elem).
Hypothesis HChan : forall elem, P elem -> P (TChan elem).
Hypothesis HFunc : P TFunc.
Hypothesis HInterface : P TInterface.
Hypothesis HMap : forall key elem, P key -> P elem -> P (TMap key elem).
Hypothesis HPointer : forall elem, P elem -> P (TPointer elem).
Hypothesis HSlice : forall elem, P elem -> P (TSlice elem).
Hypothesis HStruct :
  forall timeLike opt fs, Forall Q fs -> P (TStruct timeLike opt fs).
Hypothesis HField : forall name tag ty, P ty -> Q (mkField name tag ty).

Fixpoint rtype_fields_ind (t : rtype) : P t :=
  match t with
  | TBasic b => HBasic b
  | TArray len elem => HArray len elem (rtype_fields_ind elem)
  | TChan elem => HChan elem (rtype_fields_ind elem)
  | TFunc => HFunc
  | TInterface => HInterface
  | TMap key elem =>
      HMap key elem (rtype_fields_ind key) (rtype_fields_ind elem)
  | TPointer elem => HPointer elem (rtype_fields_ind elem)
  | TSlice elem => HSlice elem (rtype_fields_ind elem)
  | TStruct timeLike opt fs =>
      HStruct timeLike opt fs
        ((fix all (fs : list StructField) : Forall Q fs :=
            match fs with
            | [] => List.Forall_nil Q
            | f :: rest => List.Forall_cons Q f rest (field_ind f) (all rest)
            end) fs)
  end
with field_ind (f : StructField) : Q f :=
  match f with
  | mkField name tag ty => HField name tag ty (rtype_fields_ind ty)
  end.

End rtype_induction.

Section DeriverShapes.
Context {reflection : Reflection}.

(** A field of a struct derived from the empty prefix whose paths follow
    the struct one level down: not a time-like struct, and with a remote
    name that is not empty where the field's own path is a prefix. *)
Definition relocatableField (f : StructField) : bool :=
  match Type_ f with
  | TStruct _ (Some _) _ => true
  | TStruct true None _ => false
  | TStruct false None _ => negb (String.eqb (tagVal f) "")
  | TSlice (TStruct _ _ _) => negb (String.eqb (tagVal f) "")
  | _ => true
  end.
End DeriverShapes.

Section OutcomesMore.
Context {reflection : Reflection} {collection : Collection}.

(** Every error that comes with a result is [msg] wrapped around another. *)
Definition wrapsWith {A : Type} (msg : string)
    (x : result (A * option error * trace)) : Prop :=
  forall a e tr', x = Ok (a, Some e, tr') -> exists err, e = Errorf msg err.

End OutcomesMore.

(** ** More read models and collections to run on *)

Module Schema.

Import Sample.

Definition ProfileFields : list StructField :=
  [mkField "Nick" [("directus", "nick")] Optional;
   mkField "Articles" [] (TSlice Article);
   mkField "Tags" [("directus", "tags")] (TSlice (TBasic BString));
   mkField "Meta" [] (TMap (TBasic BString) TInterface);
   mkField "Author" [("directus", "author")] Author].

(** [[
type Profile struct {
    Nick     Optional          `directus:"nick"`
    Articles []Article
    Tags     []string          `directus:"tags"`
    Meta     map[string]any
    Author   Author            `directus:"author"`
}
]] *)
Definition Profile : rtype := TStruct false None ProfileFields.

(** [type Stamp struct { At Time `directus:"at"`; Note string }]. *)
Definition StampFields : list StructField :=
  [mkField "At" [("directus", "at")] Time;
   mkField "Note" [] (TBasic BString)].

Definition Stamp : rtype := TStruct false None StampFields.

(** A read model with a pointer field, behind a slice. *)
Definition Broken : rtype :=
  TStruct false None
    [mkField "ID" [] (TBasic BInt);
     mkField "Owners" [] (TSlice (TStruct false None
       [mkField "Name" [] (TBasic BString);
        mkField "Boss" [] (TPointer (TBasic BString))]))].

(** The sample collection with [Broken] for its read model. *)
Definition brokenCollection : Collection :=
  {| R := string; W := string; PK := Z; any := string; Context_ := unit;
     query := list (string * string);
     emptyR := "";
     typeOfR := Some Broken;
     fmtPK := pretty;
     asKeyValue := fun q _ => Some (list_to_map q) |}.

Definition brokenTransport : @Transport brokenCollection :=
  @Build_Transport brokenCollection
    (fun _ _ _ => inr (200%Z, "{}"))
    (fun payload _ => (payload, true))
    (fun payload _ => (Some [payload], true))
    (fun payload _ => (payload, true)).

(** The sample collection with a query translation that returns nil. *)
Definition nilQueryCollection : Collection :=
  {| R := string; W := string; PK := Z; any := string; Context_ := unit;
     query := list (string * string);
     emptyR := "";
     typeOfR := Some Scalars;
     fmtPK := pretty;
     asKeyValue := fun _ _ => None |}.

Definition nilQueryTransport : @Transport nilQueryCollection :=
  @Build_Transport nilQueryCollection
    (fun _ _ _ => inr (200%Z, "{}"))
    (fun payload _ => (payload, true))
    (fun payload _ => (Some [payload], true))
    (fun payload _ => (payload, true)).

End Schema.

(** * Theorems *)

(** ** Strings and scopes *)

Lemma append_nonempty (s t : string) : s <> "" -> s +:+ t <> "".
Proof. destruct s as [|c s]; [congruence | discriminate]. Qed.

Lemma eqb_empty_false (s : string) : s <> "" -> String.eqb s "" = false.
Proof. intros Hs. apply String.eqb_neq. exact Hs. Qed.

Lemma scoped_top (tagVal : string) : scoped "" tagVal = tagVal.
Proof. reflexivity. Qed.

Lemma scoped_under (prefix tagVal : string) :
  prefix <> "" -> scoped prefix tagVal = prefix +:+ "." +:+ tagVal.
Proof. intros Hp. unfold scoped. now rewrite eqb_empty_false. Qed.

Lemma scoped_nonempty (prefix tagVal : string) :
  tagVal <> "" -> scoped prefix tagVal <> "".
Proof.
  intros Ht. unfold scoped.
  destruct (String.eqb prefix "") eqn:E; [exact Ht |].
  apply append_nonempty. apply String.eqb_neq. exact E.
Qed.

(** The two spellings of the scope in [structFields] agree. *)
Lemma scoped_negb (prefix tagVal : string) :
  (if negb (String.eqb prefix "") then prefix +:+ "." +:+ tagVal else tagVal)
  = scoped prefix tagVal.
Proof. unfold scoped. now destruct (String.eqb prefix ""). Qed.

(** ** The loop of [iterateFields] *)

(** A loop whose every step yields one path yields them in order. *)
Lemma appendFields_leaves (step : StructField -> result (list string))
    (leaf : StructField -> string) (fs : list StructField)
    (fields : list string) :
  Forall (fun f => step f = Ok [leaf f]) fs ->
  appendFields step fs fields = Ok (fields ++ map leaf fs).
Proof.
  intros Hfs. revert fields.
  induction Hfs as [|f rest Hf _ IH]; intros fields; simpl.
  - now rewrite app_nil_r.
  - rewrite Hf, IH, <- app_assoc. reflexivity.
Qed.

(** The first panic of a step is the panic of the loop. *)
Lemma appendFields_panic (step : StructField -> result (list string))
    (done_ rest : list StructField) (f : StructField) (v : string)
    (fields : list string) :
  Forall (fun g => isOk (step g) = true) done_ ->
  step f = Panic v ->
  appendFields step (done_ ++ f :: rest) fields = Panic v.
Proof.
  intros Hdone Hf. revert fields.
  induction Hdone as [|g done_ Hg _ IH]; intros fields; simpl.
  - now rewrite Hf.
  - destruct (step g); [apply IH | discriminate].
Qed.

Section DeriverProperties.

Context {reflection : Reflection}.

Lemma iterateFields_struct (timeLike : bool) (opt : option isOpt)
    (fs : list StructField) (prefix : string) :
  iterateFields (TStruct timeLike opt fs) prefix
  = appendFields (fun f => structFields f prefix) fs [].
Proof. reflexivity. Qed.

Lemma iterateFields_non_struct (t : rtype) (prefix : string) :
  kindOf t <> reflect.Struct ->
  iterateFields t prefix
  = Panic ("reflect: NumField of non-struct type " +:+ typeString t).
Proof. destruct t; simpl; intros H; congruence. Qed.

(** A field of a scalar kind yields its scoped remote name. *)
Lemma structFields_scalar (f : StructField) (prefix : string) :
  scalarKind (kindOf (Type_ f)) = true ->
  structFields f prefix = Ok [scoped prefix (tagVal f)].
Proof.
  destruct f as [name tag ty]. unfold tagVal. simpl.
  destruct ty as [b| | | | | | | |]; try discriminate.
  destruct b; simpl; try discriminate; intros _; now rewrite scoped_negb.
Qed.

(** A field of a map kind is a leaf as well. *)
Lemma structFields_map (name : string) (tag : StructTag) (key elem : rtype)
    (prefix : string) :
  structFields (mkField name tag (TMap key elem)) prefix
  = Ok [scoped prefix (tagVal (mkField name tag (TMap key elem)))].
Proof. unfold tagVal. simpl. now rewrite scoped_negb. Qed.

(** A leaf field yields its scoped remote name. *)
Lemma structFields_leaf (f : StructField) (prefix : string) :
  leafType (Type_ f) = true ->
  structFields f prefix = Ok [scoped prefix (tagVal f)].
Proof.
  destruct f as [name tag ty]. unfold tagVal.
  destruct ty as [b| | | | | |elem|elem|]; try discriminate.
  - apply (structFields_scalar (mkField name tag (TBasic b))).
  - intros _. apply structFields_map.
  - cbn [structFields Tag Name Type_ leafType]. rewrite scoped_negb.
    destruct elem; try reflexivity. discriminate.
Qed.

Lemma scalar_leafType (t : rtype) :
  scalarKind (kindOf t) = true -> leafType t = true.
Proof. destruct t; try discriminate; try reflexivity. intros H; exact H. Qed.

(** A struct of leaf fields yields the scoped remote names, in order. *)
Lemma iterateFields_leaf_fields (timeLike : bool) (opt : option isOpt)
    (fs : list StructField) (prefix : string) :
  forallb (fun f => leafType (Type_ f)) fs = true ->
  iterateFields (TStruct timeLike opt fs) prefix
  = Ok (map (fun f => scoped prefix (tagVal f)) fs).
Proof.
  intros Hfs. rewrite iterateFields_struct.
  rewrite (appendFields_leaves _ (fun f => scoped prefix (tagVal f)));
    [reflexivity |].
  apply Forall_forall. intros f Hin. apply structFields_leaf.
  rewrite forallb_forall in Hfs. apply Hfs. now apply list_elem_of_In.
Qed.

Lemma iterateFields_scalar_fields (timeLike : bool) (opt : option isOpt)
    (fs : list StructField) (prefix : string) :
  forallb (fun f => scalarKind (kindOf (Type_ f))) fs = true ->
  iterateFields (TStruct timeLike opt fs) prefix
  = Ok (map (fun f => scoped prefix (tagVal f)) fs).
Proof.
  intros Hfs. apply iterateFields_leaf_fields.
  rewrite forallb_forall in *. intros f Hin.
  apply scalar_leafType, Hfs, Hin.
Qed.

(** ** The cases of [structFields] *)

(** C1, as the code has it: for a struct field whose type is convertible to
    [Time] and does not implement [isOpt], [structFields] yields exactly one
    path and does not descend into the fields of the type; the path is the
    prefix it was called with, not the remote name of the field. *)
Theorem structFields_time_is_prefix (name : string) (tag : StructTag)
    (fs : list StructField) (prefix : string) :
  structFields (mkField name tag (TStruct true None fs)) prefix = Ok [prefix].
Proof. reflexivity. Qed.

(** C3: a struct all of whose fields are of scalar kinds (bool, the integer
    and float widths, string) derives, from the empty prefix, the remote
    names of its fields in declaration order; the remote name [tagVal] is
    the value of the rename tag when the tag is there, else the name. *)
Theorem iterateFields_scalars_remote_names (timeLike : bool)
    (opt : option isOpt) (fs : list StructField) :
  forallb (fun f => scalarKind (kindOf (Type_ f))) fs = true ->
  iterateFields (TStruct timeLike opt fs) "" = Ok (map tagVal fs)
  /\ (forall f, In f fs ->
        tagVal f = default (Name f) (Lookup (Tag f) tagName)).
Proof.
  intros Hfs. split.
  - rewrite (iterateFields_scalar_fields _ _ _ _ Hfs). reflexivity.
  - intros f _. unfold tagVal. now destruct (Lookup (Tag f) tagName).
Qed.

(** A field whose type is a plain nested struct and which has no rename
    tag derives what the inner struct derives under the prefix extended by
    the field's name; for an inner struct of leaf fields (scalars, maps,
    slices of non-structs) these are the paths [outer.inner], one per inner
    field in order, after the prefix if there is one. *)
Theorem structFields_nested_struct (name : string) (tag : StructTag)
    (fs : list StructField) (prefix : string) :
  Lookup tag tagName = None ->
  name <> "" ->
  structFields (mkField name tag (TStruct false None fs)) prefix
  = iterateFields (TStruct false None fs) (scoped prefix name)
  /\ (forallb (fun g => leafType (Type_ g)) fs = true ->
      structFields (mkField name tag (TStruct false None fs)) prefix
      = Ok (map (fun g => scoped prefix name +:+ "." +:+ tagVal g) fs)
      /\ structFields (mkField name tag (TStruct false None fs)) ""
         = Ok (map (fun g => name +:+ "." +:+ tagVal g) fs)).
Proof.
  intros Htag Hname.
  assert (Hrec : forall p,
    structFields (mkField name tag (TStruct false None fs)) p
    = iterateFields (TStruct false None fs) (scoped p name)).
  { intros p. cbn [structFields]. rewrite Htag.
    now rewrite scoped_negb. }
  split; [apply Hrec |].
  intros Hfs.
  assert (Hpaths : forall p,
    structFields (mkField name tag (TStruct false None fs)) p
    = Ok (map (fun g => scoped p name +:+ "." +:+ tagVal g) fs)).
  { intros p. rewrite Hrec, (iterateFields_leaf_fields _ _ _ _ Hfs).
    f_equal. apply map_ext. intros g.
    apply scoped_under, scoped_nonempty, Hname. }
  split; [apply Hpaths |]. apply (Hpaths "").
Qed.

(** A slice field always recurses into a struct element type, whatever the
    element type converts to or implements. *)
Lemma structFields_slice_of_struct (name : string) (tag : StructTag)
    (timeLike : bool) (opt : option isOpt) (fs : list StructField)
    (prefix : string) :
  structFields (mkField name tag (TSlice (TStruct timeLike opt fs))) prefix
  = iterateFields (TStruct timeLike opt fs)
      (scoped prefix (tagVal (mkField name tag (TStruct timeLike opt fs)))).
Proof.
  unfold tagVal. cbn [structFields Tag Name]. now rewrite scoped_negb.
Qed.

(** C5, amended: a field whose type is a slice of plain structs (the element
    type neither converts to [Time] nor implements [isOpt]) derives what a
    field of the element type with the same name, tag and prefix derives; a
    slice of any struct type derives what the element type's fields derive
    under the scoped remote name; a slice of a type that is not a struct
    yields the scoped remote name alone. *)
Theorem structFields_slice (name : string) (tag : StructTag)
    (prefix : string) :
  (forall fs,
     structFields (mkField name tag (TSlice (TStruct false None fs))) prefix
     = structFields (mkField name tag (TStruct false None fs)) prefix)
  /\ (forall timeLike opt fs,
        structFields (mkField name tag (TSlice (TStruct timeLike opt fs)))
          prefix
        = iterateFields (TStruct timeLike opt fs)
            (scoped prefix (tagVal (mkField name tag (TSlice
               (TStruct timeLike opt fs))))))
  /\ (forall elem, kindOf elem <> reflect.Struct ->
        structFields (mkField name tag (TSlice elem)) prefix
        = Ok [scoped prefix (tagVal (mkField name tag (TSlice elem)))]).
Proof.
  split; [| split].
  - intros fs. rewrite structFields_slice_of_struct.
    unfold tagVal. cbn [structFields Tag Name]. now rewrite scoped_negb.
  - intros timeLike opt fs. apply structFields_slice_of_struct.
  - intros elem Hkind. unfold tagVal. cbn [structFields Tag Name].
    rewrite scoped_negb. destruct elem; try reflexivity.
    now contradiction Hkind.
Qed.

(** C6: a struct field whose type implements [isOpt] derives exactly what
    the [fields] method of the type returns for the scoped remote name (the
    remote name alone under the empty prefix), whether or not the type also
    converts to [Time]. *)
Theorem structFields_optional (name : string) (tag : StructTag)
    (timeLike : bool) (val : isOpt) (fs : list StructField)
    (prefix : string) :
  structFields (mkField name tag (TStruct timeLike (Some val) fs)) prefix
  = val (scoped prefix
           (tagVal (mkField name tag (TStruct timeLike (Some val) fs))))
  /\ scoped "" (tagVal (mkField name tag (TStruct timeLike (Some val) fs)))
     = tagVal (mkField name tag (TStruct timeLike (Some val) fs)).
Proof.
  split; [| reflexivity].
  unfold tagVal, scoped. cbn [structFields Tag Name].
  now destruct (String.eqb prefix "").
Qed.

(** C7: a pointer field makes [structFields] panic with the message that
    names the field and says to use [directus.Optional] instead; a field of
    any kind that is not a struct, a slice, a scalar, a map or a pointer
    makes it panic with [<kind> not implemented].  Neither returns paths,
    and the derivation of a struct whose fields before a pointer field
    derive panics with the message of the pointer field. *)
Theorem structFields_pointer_panics (prefix : string) :
  (forall name tag elem,
     structFields (mkField name tag (TPointer elem)) prefix
     = Panic (name +:+ "(" +:+ typeString elem +:+ "," +:+ prefix
              +:+ "): pointer is not supported, use directus.Optional instead"))
  /\ (forall f, implementedKind (kindOf (Type_ f)) = false ->
        structFields f prefix
        = Panic (reflect.kindString (kindOf (Type_ f)) +:+ " not implemented"))
  /\ (forall timeLike opt before name tag elem rest,
        Forall (fun g => isOk (structFields g prefix) = true) before ->
        iterateFields
          (TStruct timeLike opt
             (before ++ mkField name tag (TPointer elem) :: rest)) prefix
        = Panic (name +:+ "(" +:+ typeString elem +:+ "," +:+ prefix
                 +:+ "): pointer is not supported, use directus.Optional instead")).
Proof.
  split; [reflexivity |]. split.
  - intros [name tag ty]. cbn [Type_].
    destruct ty as [b| | | | | | | |]; try discriminate; try reflexivity.
    destruct b; try discriminate; reflexivity.
  - intros timeLike opt before name tag elem rest Hbefore.
    rewrite iterateFields_struct.
    now apply (appendFields_panic (fun f => structFields f prefix)).
Qed.

End DeriverProperties.

(** ** The cache and the operations *)

Section ClientProperties.

Context {reflection : Reflection} {collection : Collection}
        {transport : Transport}.

Lemma derivations_app (tr1 tr2 : trace) :
  derivations (tr1 ++ tr2) = derivations tr1 + derivations tr2.
Proof. unfold derivations. now rewrite List.filter_app, length_app. Qed.

Lemma jsonFieldsR_cached (d : API) (fields : list string) (tr : trace) :
  queryFields d = Some fields ->
  jsonFieldsR d tr = Ok (fields, d, tr).
Proof. intros Hq. unfold jsonFieldsR. now rewrite Hq. Qed.

Lemma jsonFieldsR_fresh (d : API) (fields : list string) (tr : trace) :
  queryFields d = None ->
  derive = Ok fields ->
  jsonFieldsR d tr
  = Ok (fields, set_queryFields d (Some fields), tr ++ [Derived]).
Proof.
  intros Hq Hd. unfold jsonFieldsR, derive in *. rewrite Hq.
  destruct typeOfR as [t|]; [| discriminate].
  unfold bindM, lift, log, ret. now rewrite Hd.
Qed.

Lemma jsonFieldsR_fresh_panic (d : API) (v : string) (tr : trace) :
  queryFields d = None ->
  derive = Panic v ->
  jsonFieldsR d tr = Panic v.
Proof.
  intros Hq Hd. unfold jsonFieldsR, derive in *. rewrite Hq.
  destruct typeOfR as [t|].
  - unfold bindM, lift. now rewrite Hd.
  - unfold panic. now injection Hd as <-.
Qed.

(** Whatever the client, a call of [jsonFieldsR] yields the derivation. *)
Lemma jsonFieldsR_paths (d : API) (tr : trace) :
  cacheValid d -> pathsOf (jsonFieldsR d tr) = derive.
Proof.
  unfold cacheValid. intros Hc.
  destruct (queryFields d) as [fields|] eqn:Hq.
  - now rewrite (jsonFieldsR_cached _ _ _ Hq).
  - destruct derive as [fields|v] eqn:Hd.
    + now rewrite (jsonFieldsR_fresh _ _ _ Hq Hd).
    + now rewrite (jsonFieldsR_fresh_panic _ _ _ Hq Hd).
Qed.

(** [jsonFieldsR] keeps the cache valid and, on the [API] it was called
    on, fills it. *)
Lemma jsonFieldsR_fills_cache (d d' : API) (fields : list string)
    (tr tr' : trace) :
  cacheValid d ->
  jsonFieldsR d tr = Ok (fields, d', tr') ->
  queryFields d' = Some fields /\ cacheValid d'.
Proof.
  unfold cacheValid. intros Hc Hrun.
  destruct (queryFields d) as [cached|] eqn:Hq.
  - rewrite (jsonFieldsR_cached _ _ _ Hq) in Hrun.
    injection Hrun as <- <- <-. now rewrite Hq.
  - destruct derive as [fs|v] eqn:Hd.
    + rewrite (jsonFieldsR_fresh _ _ _ Hq Hd) in Hrun.
      injection Hrun as <- <- <-. now split.
    + now rewrite (jsonFieldsR_fresh_panic _ _ _ Hq Hd) in Hrun.
Qed.

(** Through its pointer receiver the cache works: a second call on the
    [API] that the first call left derives nothing. *)
Lemma jsonFieldsR_again (d d' : API) (fields : list string)
    (tr tr' tr2 : trace) :
  cacheValid d ->
  jsonFieldsR d tr = Ok (fields, d', tr') ->
  jsonFieldsR d' tr2 = Ok (fields, d', tr2).
Proof.
  intros Hc Hrun. apply jsonFieldsR_cached.
  apply (jsonFieldsR_fills_cache _ _ _ _ _ Hc Hrun).
Qed.

(** [executeRequest] returns, having logged the request. *)
Lemma executeRequest_returns {T : Type} (decode : decoder T)
    (d : API) (req : request) (expectedStatus : Z) (respBody : T)
    (tr : trace) :
  exists x,
    executeRequest decode d req expectedStatus respBody tr
    = Ok (x, tr ++ [Executed req expectedStatus]).
Proof.
  unfold executeRequest.
  destruct (roundTrip tr d req) as [msg|[status payload]]; [eauto |].
  destruct (Z.eqb status expectedStatus); [| eauto].
  destruct (decode payload respBody) as [data []]; eauto.
Qed.

Lemma executeRequest_inv {T : Type} (decode : decoder T)
    (d : API) (req : request) (expectedStatus : Z) (respBody data : T)
    (err : option error) (tr tr' : trace) :
  executeRequest decode d req expectedStatus respBody tr
  = Ok (err, data, tr') ->
  tr' = tr ++ [Executed req expectedStatus]
  /\ match err with
     | Some _ => True
     | None => exists payload,
         roundTrip tr d req = inr (expectedStatus, payload)
         /\ decode payload respBody = (data, true)
     end.
Proof.
  unfold executeRequest.
  destruct (roundTrip tr d req) as [msg|[status payload]].
  - intros [= <- <- <-]. auto.
  - destruct (Z.eqb status expectedStatus) eqn:Hs.
    + apply Z.eqb_eq in Hs. subst status.
      destruct (decode payload respBody) as [v []] eqn:Hdec.
      * intros [= <- <- <-]. eauto.
      * intros [= <- <- <-]. auto.
    + intros [= <- <- <-]. auto.
Qed.

(** The operations that return one read model share a shape: the fields,
    a request made from them, and then the zero value with the wrapped
    error, or the decoded [Data]. *)
Lemma read_operation_contract (mk : list string -> request) (msg : string)
    (d : API) (tr : trace) :
  errorContract emptyR
    ((let* (fields, d) := jsonFieldsR d in
      let* (err, respBody) :=
        executeRequest decodeR d (mk fields) http.StatusOK emptyR in
      match err with
      | Some err => ret (emptyR, Some (Errorf msg err))
      | None => ret (respBody, None)
      end) tr).
Proof.
  unfold bindM.
  destruct (jsonFieldsR d tr) as [[[fields d'] tr1]|v];
    [| split; intros ? **; discriminate].
  destruct (executeRequest decodeR d' (mk fields) http.StatusOK emptyR tr1)
    as [[[err rb] tr2]|v] eqn:He; [| split; intros ? **; discriminate].
  apply executeRequest_inv in He. destruct He as [-> He].
  split.
  - intros a e tr' Hrun. destruct err; unfold ret in Hrun; congruence.
  - intros a tr' Hrun. destruct err; unfold ret in Hrun; [discriminate |].
    injection Hrun as <- <-. destruct He as [payload [Hrt _]].
    exists tr1, d', (mk fields), payload. split; [reflexivity | exact Hrt].
Qed.

Lemma read_operation_fresh (mk : list string -> request) (msg : string)
    (d : API) (fields : list string) (tr : trace) :
  queryFields d = None ->
  derive = Ok fields ->
  exists r,
    (let* (fields, d) := jsonFieldsR d in
     let* (err, respBody) :=
       executeRequest decodeR d (mk fields) http.StatusOK emptyR in
     match err with
     | Some err => ret (emptyR, Some (Errorf msg err))
     | None => ret (respBody, None)
     end) tr
    = Ok (r, tr ++ [Derived; Executed (mk fields) http.StatusOK]).
Proof.
  intros Hq Hd. unfold bindM. rewrite (jsonFieldsR_fresh _ _ _ Hq Hd).
  destruct (executeRequest_returns decodeR (set_queryFields d (Some fields))
              (mk fields) http.StatusOK emptyR (tr ++ [Derived]))
    as [[err rb] He].
  rewrite He, <- app_assoc. destruct err; unfold ret; eauto.
Qed.

Lemma derivations_after_operation (tr : trace) (req : request) (st : Z) :
  derivations (tr ++ [Derived; Executed req st]) = derivations tr + 1.
Proof. now rewrite derivations_app. Qed.

(** An operation on a client whose cache is nil derives the paths. *)
Lemma Insert_fresh (d : API) (ctx : Context_) (w : W)
    (fields : list string) (tr : trace) :
  queryFields d = None ->
  derive = Ok fields ->
  exists r req,
    Insert d ctx w tr
    = Ok (r, tr ++ [Derived; Executed req http.StatusOK]).
Proof.
  intros Hq Hd.
  epose proof (read_operation_fresh _ _ d fields tr Hq Hd) as [r Hr].
  exists r. eexists. unfold Insert. exact Hr.
Qed.

Lemma GetByID_fresh (d : API) (ctx : Context_) (id : PK)
    (fields : list string) (tr : trace) :
  queryFields d = None ->
  derive = Ok fields ->
  exists r req,
    GetByID d ctx id tr
    = Ok (r, tr ++ [Derived; Executed req http.StatusOK]).
Proof.
  intros Hq Hd.
  epose proof (read_operation_fresh _ _ d fields tr Hq Hd) as [r Hr].
  exists r. eexists. unfold GetByID. exact Hr.
Qed.

(** C2, as the code has it: the operations have value receivers, so the
    cache is filled in the method's copy of the client and the client the
    caller holds keeps its nil cache.  Three operations in a row on a client
    whose cache is nil derive the field paths three times. *)
Theorem operations_derive_each_time (d : API) (ctx : Context_) (w1 w2 : W)
    (id : PK) (fields : list string) (tr : trace) :
  queryFields d = None ->
  derive = Ok fields ->
  exists r1 tr1 r2 tr2 r3 tr3,
    Insert d ctx w1 tr = Ok (r1, tr1)
    /\ derivations tr1 = derivations tr + 1
    /\ Insert d ctx w2 tr1 = Ok (r2, tr2)
    /\ derivations tr2 = derivations tr + 2
    /\ GetByID d ctx id tr2 = Ok (r3, tr3)
    /\ derivations tr3 = derivations tr + 3.
Proof.
  intros Hq Hd.
  destruct (Insert_fresh d ctx w1 fields tr Hq Hd) as (r1 & q1 & H1).
  destruct (Insert_fresh d ctx w2 fields (tr ++ [Derived; Executed q1 200])
              Hq Hd) as (r2 & q2 & H2).
  destruct (GetByID_fresh d ctx id fields
              ((tr ++ [Derived; Executed q1 200])
               ++ [Derived; Executed q2 200]) Hq Hd) as (r3 & q3 & H3).
  eexists r1, _, r2, _, r3, _.
  split; [exact H1 |]. split; [apply derivations_after_operation |].
  split; [exact H2 |].
  split; [rewrite !derivations_after_operation; lia |].
  split; [exact H3 |]. rewrite !derivations_after_operation. lia.
Qed.

Lemma Items_contract (d : API) (ctx : Context_) (q : query) (tr : trace) :
  errorContract None (Items d ctx q tr).
Proof.
  unfold Items, ItemsRequest, bindM.
  destruct (jsonFieldsR d tr) as [[[fields d'] tr1]|v];
    [| split; intros ? **; discriminate].
  destruct (asKeyValue q (Version_ d)) as [qv|];
    [| split; intros ? **; discriminate].
  unfold ret at 1.
  match goal with
  | |- context [executeRequest decodeRs d' ?r _ _ _] => set (req := r)
  end.
  destruct (executeRequest decodeRs d' req http.StatusOK None tr1)
    as [[[err rb] tr2]|v] eqn:He; [| split; intros ? **; discriminate].
  apply executeRequest_inv in He. destruct He as [-> He].
  split.
  - intros a e tr' Hrun. destruct err; unfold ret in Hrun; congruence.
  - intros a tr' Hrun. destruct err; unfold ret in Hrun; [discriminate |].
    injection Hrun as <- <-. destruct He as [payload [Hrt _]].
    exists tr1, d', req, payload. split; [reflexivity | exact Hrt].
Qed.

(** C9: an operation among [Insert], [Create], [GetByID], [Update] and [Set]
    that returns a non-nil error returns the zero value of [R] with it, and
    [Items] returns a nil slice with it; an operation that returns a nil
    error has executed its request and the transport answered it with the
    expected status, [http.StatusOK]. *)
Theorem operations_error_contract (d : API) (ctx : Context_) (w : W)
    (p : gmap string any) (id : PK) (q : query) (tr : trace) :
  errorContract emptyR (Insert d ctx w tr)
  /\ errorContract emptyR (Create d ctx p tr)
  /\ errorContract emptyR (GetByID d ctx id tr)
  /\ errorContract emptyR (Update d ctx id p tr)
  /\ errorContract emptyR (Set_ d ctx id w tr)
  /\ errorContract None (Items d ctx q tr).
Proof.
  repeat split;
    try (apply (proj1 (read_operation_contract _ _ d tr)));
    try (apply (proj2 (read_operation_contract _ _ d tr)));
    try (apply (proj1 (Items_contract d ctx q tr)));
    apply (proj2 (Items_contract d ctx q tr)).
Qed.

(** C10: the request that [Items] executes carries the translated query
    with the entry ["fields"] set to the comma-joined field paths: the
    entry holds that string whatever the translation had there, and every
    other key has the value the translation gave it. *)
Theorem Items_fields_parameter (d d' : API) (ctx : Context_) (q : query)
    (qv : gmap string string) (fields : list string) (tr tr' : trace) :
  asKeyValue q (Version_ d) = Some qv ->
  jsonFieldsR d tr = Ok (fields, d', tr') ->
  exists req,
    ItemsRequest d ctx q tr = Ok (req, d', tr')
    /\ Items d ctx q tr
       = (let* (err, respBody) :=
            executeRequest decodeRs d' req http.StatusOK None in
          match err with
          | Some err => ret (None, Some (Errorf "execute items request" err))
          | None => ret (respBody, None)
          end) tr'
    /\ params req = Some (<[ "fields" := Join fields "," ]> qv)
    /\ (<[ "fields" := Join fields "," ]> qv) !! "fields"
       = Some (Join fields ",")
    /\ (forall k, k <> "fields" ->
          (<[ "fields" := Join fields "," ]> qv) !! k = qv !! k).
Proof.
  intros Hqv Hrun. eexists. split; [| split; [| split; [| split]]].
  - unfold ItemsRequest, bindM. rewrite Hrun, Hqv. reflexivity.
  - unfold Items, ItemsRequest, bindM. rewrite Hrun, Hqv. reflexivity.
  - reflexivity.
  - apply lookup_insert_eq.
  - intros k Hk. apply lookup_insert_ne. congruence.
Qed.

End ClientProperties.

(** ** The shape of a read model and its paths *)

Lemma append_assoc (s t u : string) : (s +:+ t) +:+ u = s +:+ (t +:+ u).
Proof.
  induction s as [|c s IH]; [reflexivity |].
  change ((String.String c s +:+ t) +:+ u) with (String.String c ((s +:+ t) +:+ u)).
  change (String.String c s +:+ (t +:+ u)) with (String.String c (s +:+ (t +:+ u))).
  now rewrite IH.
Qed.

Lemma below_assoc (outer q t : string) :
  below (below outer q) t = below outer (below q t).
Proof. unfold below. now rewrite !append_assoc. Qed.

Lemma below_nonempty (outer s : string) : s <> "" -> below outer s <> "".
Proof.
  intros Hs. unfold below. destruct outer as [|c outer]; [| discriminate].
  destruct s; [congruence | discriminate].
Qed.

Lemma scoped_below (outer q t : string) :
  q <> "" -> scoped (below outer q) t = below outer (scoped q t).
Proof.
  intros Hq. rewrite (scoped_under q t Hq).
  rewrite (scoped_under _ t (below_nonempty outer q Hq)).
  apply below_assoc.
Qed.

Lemma under_scoped (prefix t s : string) :
  under (scoped prefix t) s -> under prefix s.
Proof.
  intros [-> | [rest ->]]; right; [now exists t |].
  destruct (String.eqb_spec prefix "") as [-> | Hp].
  - now exists (scoped t rest).
  - exists (below t rest).
    rewrite (scoped_under prefix t Hp), (scoped_under prefix _ Hp).
    rewrite scoped_under.
    + apply (below_assoc prefix t rest).
    + now apply append_nonempty.
Qed.

Lemma appendFields_isOk (step : StructField -> result (list string))
    (fs : list StructField) (fields : list string) :
  isOk (appendFields step fs fields) = forallb (fun f => isOk (step f)) fs.
Proof.
  revert fields. induction fs as [|f rest IH]; intros fields; simpl;
    [reflexivity |].
  destruct (step f); simpl; [apply IH | reflexivity].
Qed.

Lemma appendFields_Forall (P : string -> Prop)
    (step : StructField -> result (list string))
    (fs : list StructField) (fields l : list string) :
  Forall (fun f => forall l, step f = Ok l -> Forall P l) fs ->
  Forall P fields ->
  appendFields step fs fields = Ok l ->
  Forall P l.
Proof.
  intros Hfs. revert fields.
  induction Hfs as [|f rest Hf _ IH]; intros fields Hacc; simpl.
  - now intros [= <-].
  - destruct (step f) as [lf|v] eqn:E; [| discriminate].
    apply IH. apply Forall_app. split; [exact Hacc | now apply Hf].
Qed.

Lemma appendFields_map (g : string -> string)
    (step step' : StructField -> result (list string))
    (fs : list StructField) (fields l : list string) :
  Forall (fun f => forall l, step f = Ok l -> step' f = Ok (map g l)) fs ->
  appendFields step fs fields = Ok l ->
  appendFields step' fs (map g fields) = Ok (map g l).
Proof.
  intros Hfs. revert fields.
  induction Hfs as [|f rest Hf _ IH]; intros fields; simpl.
  - now intros [= <-].
  - destruct (step f) as [lf|v] eqn:E; [| discriminate].
    rewrite (Hf lf eq_refl), <- map_app. apply IH.
Qed.

Lemma supportedStruct_fields (timeLike : bool) (opt : option isOpt)
    (fs : list StructField) :
  supportedStruct (TStruct timeLike opt fs) = forallb supportedField fs.
Proof. induction fs as [|f rest IH]; simpl in *; [| rewrite IH]; reflexivity. Qed.

Lemma wrappersSatisfy_fields (P : isOpt -> Prop) (timeLike : bool)
    (opt : option isOpt) (fs : list StructField) :
  wrappersSatisfy P (TStruct timeLike opt fs)
  <-> Forall (fieldWrappersSatisfy P) fs.
Proof.
  induction fs as [|f rest IH]; simpl in *.
  - split; [constructor | trivial].
  - rewrite Forall_cons, IH. reflexivity.
Qed.

(** Induction for statements about [iterateFields] and [structFields]:
    a field may use the statement for its type and, when the type is a
    slice, for the element type. *)
Lemma rtype_struct_ind (P : rtype -> Prop) (Q : StructField -> Prop) :
  (forall t, kindOf t <> reflect.Struct -> P t) ->
  (forall timeLike opt fs, Forall Q fs -> P (TStruct timeLike opt fs)) ->
  (forall name tag ty,
     P ty -> (forall elem, ty = TSlice elem -> P elem) ->
     Q (mkField name tag ty)) ->
  (forall t, P t) /\ (forall f, Q f).
Proof.
  intros Hother Hstruct Hfield.
  assert (Hall : forall t, P t /\ (forall elem, t = TSlice elem -> P elem)).
  { apply (rtype_fields_ind
             (fun t => P t /\ (forall elem, t = TSlice elem -> P elem)) Q);
      try (intros; split; [now apply Hother | discriminate]).
    - intros b. split; [| discriminate].
      apply Hother. now destruct b.
    - intros elem [He _]. split; [now apply Hother |].
      now intros ? [= <-].
    - intros timeLike opt fs Hfs. split; [now apply Hstruct | discriminate].
    - intros name tag ty [Hty Hel]. now apply Hfield. }
  split; [intros t; apply Hall |].
  intros [name tag ty]. destruct (Hall ty) as [Hty Hel]. now apply Hfield.
Qed.

Section ShapeProperties.
Context {reflection : Reflection}.

(** [structFields] by the type of the field, the scope spelled [scoped]. *)
Lemma structFields_cases (f : StructField) (prefix : string) :
  structFields f prefix
  = match Type_ f with
    | TStruct _ (Some val) _ => val (scoped prefix (tagVal f))
    | TStruct true None _ => Ok [prefix]
    | TStruct false None _ =>
        iterateFields (Type_ f) (scoped prefix (tagVal f))
    | TSlice elem =>
        match elem with
        | TStruct _ _ _ => iterateFields elem (scoped prefix (tagVal f))
        | _ => Ok [scoped prefix (tagVal f)]
        end
    | TMap _ _ => Ok [scoped prefix (tagVal f)]
    | TPointer elem =>
        Panic (Name f +:+ "(" +:+ typeString elem +:+ "," +:+ prefix
               +:+ "): pointer is not supported, use directus.Optional instead")
    | ty =>
        if scalarKind (kindOf ty) then Ok [scoped prefix (tagVal f)]
        else Panic (reflect.kindString (kindOf ty) +:+ " not implemented")
    end.
Proof.
  destruct f as [name tag ty]. unfold tagVal, scoped.
  cbn [structFields Type_ Tag Name].
  destruct ty as [b| | | | | | | |timeLike opt fs]; try reflexivity.
  - destruct b; cbn; destruct (String.eqb prefix ""); reflexivity.
  - destruct (String.eqb prefix ""); reflexivity.
  - destruct (String.eqb prefix ""); reflexivity.
  - destruct opt as [val|], timeLike;
      destruct (String.eqb prefix ""); reflexivity.
Qed.

Lemma returns_only_if_supported :
  (forall t prefix,
     isOk (iterateFields t prefix) = true -> supportedStruct t = true)
  /\ (forall f prefix,
        isOk (structFields f prefix) = true -> supportedField f = true).
Proof.
  apply rtype_struct_ind.
  - intros t Hkind prefix. now rewrite (iterateFields_non_struct _ _ Hkind).
  - intros timeLike opt fs Hfs prefix.
    rewrite iterateFields_struct, appendFields_isOk, supportedStruct_fields,
      !forallb_forall.
    rewrite Forall_forall in Hfs.
    intros Hok f Hin. apply list_elem_of_In in Hin as Hin'.
    apply (Hfs f Hin' prefix), (Hok f Hin).
  - intros name tag ty Hty Hel prefix. rewrite structFields_cases.
    cbn [Type_ supportedField].
    destruct ty as [b| | | | | |elem|elem|timeLike opt fs];
      try discriminate; try reflexivity.
    + now destruct (scalarKind (kindOf (TBasic b))).
    + destruct elem; try reflexivity. apply (Hel _ eq_refl).
    + destruct opt as [val|], timeLike; try reflexivity. apply Hty.
Qed.

(** X1: a derivation that returns, under whatever prefix, was run on a
    struct in which no field that the walk reaches is a pointer or of a
    kind without a case: a field of one of these makes the derivation
    panic wherever it sits among the fields that are reached. *)
Theorem iterateFields_returns_only_if_supported (t : rtype)
    (prefix : string) :
  isOk (iterateFields t prefix) = true -> supportedStruct t = true.
Proof. apply (proj1 returns_only_if_supported). Qed.

Lemma derived_paths_under :
  (forall t prefix l,
     wrappersSatisfy scoping t -> iterateFields t prefix = Ok l ->
     Forall (under prefix) l)
  /\ (forall f prefix l,
        fieldWrappersSatisfy scoping f -> structFields f prefix = Ok l ->
        Forall (under prefix) l).
Proof.
  apply rtype_struct_ind.
  - intros t Hkind prefix l _. now rewrite (iterateFields_non_struct _ _ Hkind).
  - intros timeLike opt fs Hfs prefix l Hw. rewrite iterateFields_struct.
    apply appendFields_Forall; [| constructor].
    rewrite wrappersSatisfy_fields in Hw.
    rewrite Forall_forall in *. intros f Hin lf. now apply Hfs, Hw.
  - intros name tag ty Hty Hel prefix l. rewrite structFields_cases.
    cbn [Type_ fieldWrappersSatisfy].
    assert (Hleaf : Forall (under prefix)
                      [scoped prefix (tagVal (mkField name tag ty))]).
    { constructor; [| constructor]. right. now eexists. }
    assert (Hdown : forall s,
              Forall (under (scoped prefix (tagVal (mkField name tag ty)))) s
              -> Forall (under prefix) s).
    { intros s Hs. eapply Forall_impl; [exact Hs |].
      intros p. apply under_scoped. }
    destruct ty as [b| | | | | |elem|elem|timeLike opt fs];
      try (intros _ [= <-]; exact Hleaf); try discriminate.
    + destruct (scalarKind (kindOf (TBasic b)));
        [intros _ [= <-]; exact Hleaf | discriminate].
    + destruct elem; try (intros _ [= <-]; exact Hleaf).
      intros Hw Hrun. apply Hdown. now apply (Hel _ eq_refl).
    + destruct opt as [val|], timeLike.
      * intros Hval Hrun. apply Hdown. now apply Hval.
      * intros Hval Hrun. apply Hdown. now apply Hval.
      * intros _ [= <-]. constructor; [| constructor]. now left.
      * intros Hw Hrun. apply Hdown. now apply Hty.
Qed.

(** X2: every path derived for a type under a prefix is the prefix itself
    or lies below it, once the paths that the optional wrappers return stay
    under the prefix they are given. *)
Theorem iterateFields_paths_under_prefix (t : rtype) (prefix : string)
    (l : list string) :
  wrappersSatisfy scoping t ->
  iterateFields t prefix = Ok l ->
  Forall (under prefix) l.
Proof. apply (proj1 derived_paths_under). Qed.

Lemma derivation_follows_prefix :
  (forall t outer prefix l,
     prefix <> "" -> wrappersSatisfy relocating t ->
     iterateFields t prefix = Ok l ->
     iterateFields t (below outer prefix) = Ok (map (below outer) l))
  /\ (forall f outer prefix l,
        prefix <> "" -> fieldWrappersSatisfy relocating f ->
        structFields f prefix = Ok l ->
        structFields f (below outer prefix) = Ok (map (below outer) l)).
Proof.
  apply rtype_struct_ind.
  - intros t Hkind outer prefix l _ _.
    now rewrite (iterateFields_non_struct _ _ Hkind).
  - intros timeLike opt fs Hfs outer prefix l Hp Hw.
    rewrite !iterateFields_struct.
    apply (appendFields_map (below outer) _ _ fs []).
    rewrite wrappersSatisfy_fields in Hw.
    rewrite Forall_forall in *. intros f Hin lf. now apply Hfs, Hw.
  - intros name tag ty Hty Hel outer prefix l Hp.
    rewrite !structFields_cases. cbn [Type_ fieldWrappersSatisfy].
    rewrite (scoped_below outer prefix _ Hp).
    assert (Hscope : scoped prefix (tagVal (mkField name tag ty)) <> "").
    { rewrite (scoped_under _ _ Hp). now apply append_nonempty. }
    destruct ty as [b| | | | | |elem|elem|timeLike opt fs];
      try (intros _ [= <-]; reflexivity); try discriminate.
    + destruct (scalarKind (kindOf (TBasic b)));
        [intros _ [= <-]; reflexivity | discriminate].
    + destruct elem; try (intros _ [= <-]; reflexivity).
      intros Hw Hrun. now apply (Hel _ eq_refl).
    + destruct opt as [val|], timeLike.
      * intros Hval Hrun. now apply Hval.
      * intros Hval Hrun. now apply Hval.
      * intros _ [= <-]. reflexivity.
      * intros Hw Hrun. now apply Hty.
Qed.

(** X3: deriving a type one level further down, under [outer.prefix] for
    a prefix that is not empty, yields the paths derived under [prefix],
    each below [outer]; optional wrappers are taken to follow their
    prefix. *)
Theorem iterateFields_below (t : rtype) (outer prefix : string)
    (l : list string) :
  prefix <> "" ->
  wrappersSatisfy relocating t ->
  iterateFields t prefix = Ok l ->
  iterateFields t (below outer prefix) = Ok (map (below outer) l).
Proof. apply (proj1 derivation_follows_prefix). Qed.

Lemma structFields_from_top (f : StructField) (prefix : string)
    (l : list string) :
  prefix <> "" ->
  relocatableField f = true ->
  fieldWrappersSatisfy relocating f ->
  structFields f "" = Ok l ->
  structFields f prefix = Ok (map (below prefix) l).
Proof.
  intros Hp. rewrite !structFields_cases.
  rewrite (scoped_under prefix _ Hp), scoped_top.
  destruct f as [name tag ty].
  unfold relocatableField. cbn [Type_ fieldWrappersSatisfy].
  set (tv := tagVal (mkField name tag ty)).
  assert (Hnest : forall t l,
            negb (String.eqb tv "") = true ->
            wrappersSatisfy relocating t ->
            iterateFields t tv = Ok l ->
            iterateFields t (prefix +:+ "." +:+ tv)
            = Ok (map (below prefix) l)).
  { intros t l0 Htv Hw Hrun. apply negb_true_iff, String.eqb_neq in Htv.
    now apply (proj1 derivation_follows_prefix t prefix tv l0). }
  destruct ty as [b| | | | | |elem|elem|timeLike opt fs];
    try (intros _ _ [= <-]; reflexivity); try discriminate.
  - destruct (scalarKind (kindOf (TBasic b)));
      [intros _ _ [= <-]; reflexivity | discriminate].
  - destruct elem; try (intros _ _ [= <-]; reflexivity).
    apply Hnest.
  - destruct opt as [val|], timeLike; try discriminate.
    + intros _ Hval Hrun. now apply (Hval prefix tv).
    + intros _ Hval Hrun. now apply (Hval prefix tv).
    + apply Hnest.
Qed.

(** X4: the paths of a struct derived under a prefix are its paths from
    the empty prefix, each below the prefix, when no field of the struct is
    a time-like struct and the fields that are structs or slices of structs
    have remote names that are not empty. *)
Theorem iterateFields_from_top (timeLike : bool) (opt : option isOpt)
    (fs : list StructField) (prefix : string) (l : list string) :
  prefix <> "" ->
  forallb relocatableField fs = true ->
  wrappersSatisfy relocating (TStruct timeLike opt fs) ->
  iterateFields (TStruct timeLike opt fs) "" = Ok l ->
  iterateFields (TStruct timeLike opt fs) prefix = Ok (map (below prefix) l).
Proof.
  intros Hp Hfs Hw. rewrite !iterateFields_struct.
  apply (appendFields_map (below prefix) _ _ fs []).
  rewrite wrappersSatisfy_fields in Hw.
  rewrite forallb_forall in Hfs. rewrite Forall_forall in *.
  intros f Hin lf. apply (structFields_from_top f prefix lf Hp).
  - apply Hfs. now apply list_elem_of_In.
  - now apply Hw.
Qed.

End ShapeProperties.

Section NestedStructs.

Context {reflection : Reflection}.

(** C4, as the code has it: a field whose type is a plain nested struct
    and which has no rename tag derives its inner fields under the prefix
    extended by its name.  Each inner field that is a leaf (a scalar, a
    map, a slice of non-structs) yields [outer.inner]; each inner field
    that is a time-like struct yields the path of the outer field, not
    [outer.inner]. *)
Theorem structFields_nested_paths (name : string) (tag : StructTag)
    (fs : list StructField) (prefix : string) :
  Lookup tag tagName = None ->
  name <> "" ->
  forallb (fun g => leafType (Type_ g) || timeField g) fs = true ->
  structFields (mkField name tag (TStruct false None fs)) prefix
  = Ok (map (fun g => if timeField g then scoped prefix name
                      else scoped prefix name +:+ "." +:+ tagVal g) fs).
Proof.
  intros Htag Hname Hfs.
  assert (Houter : scoped prefix name <> "") by now apply scoped_nonempty.
  rewrite structFields_cases. cbn [Type_]. unfold tagVal at 1.
  cbn [Tag Name]. rewrite Htag, iterateFields_struct.
  rewrite (appendFields_leaves _
             (fun g => if timeField g then scoped prefix name
                       else scoped prefix name +:+ "." +:+ tagVal g));
    [reflexivity |].
  apply Forall_forall. intros g Hin.
  rewrite forallb_forall in Hfs.
  apply list_elem_of_In, Hfs in Hin.
  destruct (timeField g) eqn:Htime.
  - rewrite structFields_cases. unfold timeField in Htime.
    destruct (Type_ g) as [| | | | | | | |[] [] ?]; try discriminate.
    reflexivity.
  - rewrite orb_false_r in Hin.
    rewrite (structFields_leaf g _ Hin). now rewrite scoped_under.
Qed.

End NestedStructs.

(** ** More on the cache and the operations *)

Section ClientMore.

Context {reflection : Reflection} {collection : Collection}
        {transport : Transport}.

Lemma set_queryFields_same (d : API) (fields : list string) :
  queryFields d = Some fields -> set_queryFields d (Some fields) = d.
Proof. destruct d. cbn. now intros ->. Qed.

(** X5: through its pointer receiver [jsonFieldsR] is a cache: a call that
    returns leaves the paths in [queryFields] and changes nothing else of
    the client, it derives at most once, and every later call on the client
    it left returns the same paths with neither a derivation nor a write. *)
Theorem jsonFieldsR_through_pointer (d d' : API) (fields : list string)
    (tr tr' : trace) :
  jsonFieldsR d tr = Ok (fields, d', tr') ->
  d' = set_queryFields d (Some fields)
  /\ (forall tr2, jsonFieldsR d' tr2 = Ok (fields, d', tr2))
  /\ (tr' = tr \/ queryFields d = None /\ tr' = tr ++ [Derived]).
Proof.
  intros Hrun. destruct (queryFields d) as [cached|] eqn:Hq.
  - rewrite (jsonFieldsR_cached _ _ _ Hq) in Hrun.
    injection Hrun as <- <- <-. split; [| split].
    + symmetry. now apply set_queryFields_same.
    + intros tr2. now apply jsonFieldsR_cached.
    + now left.
  - destruct derive as [fs|v] eqn:Hd.
    + rewrite (jsonFieldsR_fresh _ _ _ Hq Hd) in Hrun.
      injection Hrun as <- <- <-. split; [reflexivity | split].
      * intros tr2. now apply jsonFieldsR_cached.
      * now right.
    + now rewrite (jsonFieldsR_fresh_panic _ _ _ Hq Hd) in Hrun.
Qed.


(** X8: when the translation of the query returns a nil map and the derivation
    returns, [Items] panics on the assignment of ["fields"]. *)
Theorem Items_nil_map_panics (d d' : API) (ctx : Context_) (q : query)
    (fields : list string) (tr tr' : trace) :
  asKeyValue q (Version_ d) = None ->
  jsonFieldsR d tr = Ok (fields, d', tr') ->
  Items d ctx q tr = Panic "assignment to entry in nil map".
Proof.
  intros Hqv Hrun. unfold Items, ItemsRequest, bindM.
  now rewrite Hrun, Hqv.
Qed.

Lemma read_operation_wraps (mk : list string -> request) (msg : string)
    (d : API) (tr : trace) :
  wrapsWith msg
    ((let* (fields, d) := jsonFieldsR d in
      let* (err, respBody) :=
        executeRequest decodeR d (mk fields) http.StatusOK emptyR in
      match err with
      | Some err => ret (emptyR, Some (Errorf msg err))
      | None => ret (respBody, None)
      end) tr).
Proof.
  unfold bindM. intros a e tr'.
  destruct (jsonFieldsR d tr) as [[[fields d'] tr1]|v]; [| discriminate].
  destruct (executeRequest decodeR d' (mk fields) http.StatusOK emptyR tr1)
    as [[[err rb] tr2]|v]; [| discriminate].
  destruct err; unfold ret; intros [= <- <- <-]. eauto.
Qed.

(** X9: every error an operation returns is wrapped in the message that names
    the operation; [CreateToken] returns the empty token with an error. *)
Theorem operations_wrap_errors (d : API) (ctx : Context_) (w : W)
    (p : gmap string any) (id : PK) (q : query) (email password : string)
    (tr : trace) :
  (wrapsWith "execute create token request"
     (CreateToken d ctx email password tr)
   /\ zeroOnError "" (CreateToken d ctx email password tr))
  /\ wrapsWith "execute insert request" (Insert d ctx w tr)
  /\ wrapsWith "execute create request" (Create d ctx p tr)
  /\ wrapsWith "execute get by id request" (GetByID d ctx id tr)
  /\ wrapsWith "execute update request" (Update d ctx id p tr)
  /\ wrapsWith "execute set request" (Set_ d ctx id w tr)
  /\ wrapsWith "execute items request" (Items d ctx q tr)
  /\ (forall e tr', Delete d ctx id tr = Ok (Some e, tr') ->
       exists err, e = Errorf "execute delete request" err).
Proof.
  split; [| repeat split; try apply read_operation_wraps].
  - unfold CreateToken, bindM.
    match goal with
    | |- context [executeRequest decodeToken d ?r ?s ?z tr] =>
        destruct (executeRequest decodeToken d r s z tr)
          as [[[err rb] tr2]|v]
    end; [| split; intros ? **; discriminate].
    split; intros a e tr'; destruct err; unfold ret;
      intros [= <- <- <-]; eauto.
  - unfold Items, ItemsRequest, bindM. intros a e tr'.
    destruct (jsonFieldsR d tr) as [[[fields d'] tr1]|v]; [| discriminate].
    destruct (asKeyValue q (Version_ d)) as [qv|]; [| discriminate].
    unfold ret at 1.
    match goal with
    | |- context [executeRequest decodeRs d' ?r ?s ?z tr1] =>
        destruct (executeRequest decodeRs d' r s z tr1)
          as [[[err rb] tr2]|v]
    end; [| discriminate].
    destruct err; unfold ret; intros [= <- <- <-]. eauto.
  - unfold Delete, bindM. intros e tr'.
    match goal with
    | |- context [executeRequest ?dec d ?r ?s ?z tr] =>
        destruct (executeRequest dec d r s z tr) as [[[err rb] tr2]|v]
    end; [| discriminate].
    destruct err; unfold ret; intros [= <- <-]. eauto.
Qed.

End ClientMore.

Section UnsupportedModels.

Context {reflection : Reflection} {collection : Collection}
        {transport : Transport}.

(** X7: a read model in which a field the derivation reaches is a pointer
    or of a kind without a case, or which is no struct at all, makes every
    operation that asks for the fields panic on a client whose cache is
    nil. *)
Theorem operations_panic_on_unsupported_model (d : API) (ctx : Context_)
    (w : W) (p : gmap string any) (id : PK) (q : query) (t : rtype)
    (tr : trace) :
  typeOfR = Some t ->
  supportedStruct t = false ->
  queryFields d = None ->
  exists v,
    Insert d ctx w tr = Panic v
    /\ Create d ctx p tr = Panic v
    /\ GetByID d ctx id tr = Panic v
    /\ Update d ctx id p tr = Panic v
    /\ Set_ d ctx id w tr = Panic v
    /\ Items d ctx q tr = Panic v.
Proof.
  intros Ht Hsup Hq.
  assert (Hd : exists v, derive = Panic v).
  { unfold derive. rewrite Ht.
    destruct (iterateFields t "") as [l|v] eqn:E; [| now exists v].
    assert (Hok : isOk (iterateFields t "") = true) by now rewrite E.
    apply (proj1 returns_only_if_supported t "") in Hok. congruence. }
  destruct Hd as [v Hd]. exists v.
  pose proof (jsonFieldsR_fresh_panic d v tr Hq Hd) as Hrun.
  unfold Insert, Create, GetByID, Update, Set_, Items, ItemsRequest, bindM.
  rewrite Hrun. repeat split; reflexivity.
Qed.

End UnsupportedModels.

(** ** The theorems at work on the sample collection *)

Import Sample.

(** The read model [Article] at the top level: the time-like field
    [CreatedAt], tagged [created_at], is asked for under the empty path. *)
Example Article_paths :
  iterateFields Article "" = Ok ["id"; "Title"; "Author.id"; "Author.Name"; ""].
Proof. reflexivity. Qed.

Lemma iterateFields_scalars_witness :
  forallb (fun f => scalarKind (kindOf (Type_ f))) ScalarFields = true
  /\ iterateFields Scalars "" = Ok ["id"; "Title"; ""; "Live"].
Proof.
  split; [reflexivity |].
  exact (proj1 (iterateFields_scalars_remote_names
                  (reflection := reflection) false None ScalarFields
                  eq_refl)).
Defined.

Lemma structFields_nested_witness :
  Lookup [("json", "author")] tagName = None
  /\ "Author" <> ""
  /\ structFields (mkField "Author" [("json", "author")] Author) ""
     = Ok ["Author.id"; "Author.Name"]
  /\ structFields (mkField "Author" [("json", "author")] Author) "post"
     = Ok ["post.Author.id"; "post.Author.Name"].
Proof.
  assert (Hname : "Author" <> "") by discriminate.
  split; [reflexivity |]. split; [exact Hname |].
  destruct (proj2 (structFields_nested_struct (reflection := reflection)
                     "Author" [("json", "author")] AuthorFields "post"
                     eq_refl Hname) eq_refl)
    as [Hunder Htop].
  split; [exact Htop | exact Hunder].
Defined.

(** A slice of a time-like struct does not derive what a field of the
    time-like struct derives: the slice descends into the element type. *)
Lemma slice_of_time_like_differs :
  structFields (mkField "Dates" [] (TSlice Time)) ""
  <> structFields (mkField "Dates" [] Time) "".
Proof. discriminate. Qed.

Lemma structFields_slice_witness :
  kindOf (TBasic BString) <> reflect.Struct
  /\ structFields (mkField "Tags" [("directus", "tags")]
                     (TSlice (TBasic BString))) "post"
     = Ok ["post.tags"]
  /\ structFields (mkField "Authors" [] (TSlice Author)) ""
     = structFields (mkField "Authors" [] Author) "".
Proof.
  assert (Hkind : kindOf (TBasic BString) <> reflect.Struct) by discriminate.
  split; [exact Hkind |]. split.
  - exact (proj2 (proj2 (structFields_slice (reflection := reflection)
                           "Tags" [("directus", "tags")] "post"))
             (TBasic BString) Hkind).
  - exact (proj1 (structFields_slice (reflection := reflection)
                    "Authors" [] "") AuthorFields).
Defined.

Lemma structFields_unsupported_witness :
  implementedKind (kindOf (TArray 3 (TBasic BInt))) = false
  /\ structFields (mkField "Grid" [] (TArray 3 (TBasic BInt))) "post"
     = Panic "array not implemented".
Proof.
  split; [reflexivity |].
  exact (proj1 (proj2 (structFields_pointer_panics
                         (reflection := reflection) "post"))
           (mkField "Grid" [] (TArray 3 (TBasic BInt))) eq_refl).
Defined.

Lemma operations_derive_each_time_witness :
  queryFields client = None
  /\ derive = Ok ["id"; "Title"; ""; "Live"]
  /\ exists r1 tr1 r2 tr2 r3 tr3,
       Insert client tt "first" [] = Ok (r1, tr1)
       /\ derivations tr1 = derivations [] + 1
       /\ Insert client tt "second" tr1 = Ok (r2, tr2)
       /\ derivations tr2 = derivations [] + 2
       /\ GetByID client tt 42%Z tr2 = Ok (r3, tr3)
       /\ derivations tr3 = derivations [] + 3.
Proof.
  split; [reflexivity |]. split; [reflexivity |].
  exact (operations_derive_each_time client tt "first" "second" 42%Z
           _ [] eq_refl eq_refl).
Defined.

Lemma operations_error_contract_witness :
  decodeR "{data:" emptyR = ("{data:", false)
  /\ exists a tr',
       Update client tt 42%Z ∅ []
       = Ok (a, Some (Errorf "execute update request"
                        (DecodingFailure "{data:")), tr')
       /\ a = emptyR.
Proof.
  split; [reflexivity |].
  assert (Hrun : exists a tr',
            Update client tt 42%Z ∅ []
            = Ok (a, Some (Errorf "execute update request"
                             (DecodingFailure "{data:")), tr')).
  { vm_compute. eexists _, _. reflexivity. }
  destruct Hrun as (a & tr' & Hrun).
  exists a, tr'. split; [exact Hrun |].
  exact (proj1 (proj1 (proj2 (proj2 (proj2
           (operations_error_contract client tt "" ∅ 42%Z [] [])))))
           a _ tr' Hrun).
Defined.

Lemma Items_fields_parameter_witness :
  asKeyValue pageQuery (Version_ client) = Some (list_to_map pageQuery)
  /\ jsonFieldsR client []
     = Ok (["id"; "Title"; ""; "Live"],
           set_queryFields client (Some ["id"; "Title"; ""; "Live"]),
           [Derived])
  /\ exists req,
       ItemsRequest client tt pageQuery []
       = Ok (req, set_queryFields client (Some ["id"; "Title"; ""; "Live"]),
             [Derived])
       /\ params req
          = Some (<[ "fields" := "id,Title,,Live" ]> (list_to_map pageQuery)).
Proof.
  split; [reflexivity |]. split; [reflexivity |].
  destruct (Items_fields_parameter (collection := collection)
              (transport := transport) client _ tt pageQuery _ _ [] _
              eq_refl eq_refl) as (req & Hreq & _ & Hparams & _).
  exists req. split; [exact Hreq | exact Hparams].
Defined.

(** ** The further theorems at work *)

Import Schema.

Lemma Optional_scoping : scoping (fun prefix => Ok [prefix]).
Proof.
  intros prefix l [= <-]. constructor; [now left | constructor].
Qed.

Lemma Optional_relocating : relocating (fun prefix => Ok [prefix]).
Proof. intros outer prefix l [= <-]. reflexivity. Qed.

Lemma iterateFields_returns_witness :
  isOk (iterateFields Profile "me") = true
  /\ supportedStruct Profile = true.
Proof.
  split; [reflexivity |].
  exact (iterateFields_returns_only_if_supported
           (reflection := reflection) Profile "me" eq_refl).
Defined.

Lemma iterateFields_paths_under_witness :
  wrappersSatisfy scoping Profile
  /\ iterateFields Profile "me"
     = Ok ["me.nick"; "me.Articles.id"; "me.Articles.Title";
           "me.Articles.Author.id"; "me.Articles.Author.Name";
           "me.Articles"; "me.tags"; "me.Meta"; "me.author.id";
           "me.author.Name"]
  /\ Forall (under "me")
       ["me.nick"; "me.Articles.id"; "me.Articles.Title";
        "me.Articles.Author.id"; "me.Articles.Author.Name";
        "me.Articles"; "me.tags"; "me.Meta"; "me.author.id";
        "me.author.Name"].
Proof.
  assert (Hw : wrappersSatisfy scoping Profile).
  { cbn. repeat match goal with
               | |- _ /\ _ => split
               | |- True => exact I
               end.
    apply Optional_scoping. }
  split; [exact Hw |]. split; [reflexivity |].
  exact (iterateFields_paths_under_prefix (reflection := reflection)
           Profile "me" _ Hw eq_refl).
Defined.

Lemma iterateFields_below_witness :
  "me" <> ""
  /\ wrappersSatisfy relocating Profile
  /\ iterateFields Profile "me"
     = Ok ["me.nick"; "me.Articles.id"; "me.Articles.Title";
           "me.Articles.Author.id"; "me.Articles.Author.Name";
           "me.Articles"; "me.tags"; "me.Meta"; "me.author.id";
           "me.author.Name"]
  /\ iterateFields Profile "all.me"
     = Ok ["all.me.nick"; "all.me.Articles.id"; "all.me.Articles.Title";
           "all.me.Articles.Author.id"; "all.me.Articles.Author.Name";
           "all.me.Articles"; "all.me.tags"; "all.me.Meta";
           "all.me.author.id"; "all.me.author.Name"].
Proof.
  assert (Hme : "me" <> "") by discriminate.
  assert (Hw : wrappersSatisfy relocating Profile).
  { cbn. repeat match goal with
               | |- _ /\ _ => split
               | |- True => exact I
               end.
    apply Optional_relocating. }
  split; [exact Hme |]. split; [exact Hw |]. split; [reflexivity |].
  exact (iterateFields_below (reflection := reflection)
           Profile "all" "me" _ Hme Hw eq_refl).
Defined.

Lemma iterateFields_from_top_witness :
  "me" <> ""
  /\ forallb relocatableField ProfileFields = true
  /\ wrappersSatisfy relocating Profile
  /\ iterateFields Profile ""
     = Ok ["nick"; "Articles.id"; "Articles.Title"; "Articles.Author.id";
           "Articles.Author.Name"; "Articles"; "tags"; "Meta"; "author.id";
           "author.Name"]
  /\ iterateFields Profile "me"
     = Ok ["me.nick"; "me.Articles.id"; "me.Articles.Title";
           "me.Articles.Author.id"; "me.Articles.Author.Name";
           "me.Articles"; "me.tags"; "me.Meta"; "me.author.id";
           "me.author.Name"].
Proof.
  assert (Hme : "me" <> "") by discriminate.
  assert (Hw : wrappersSatisfy relocating Profile).
  { cbn. repeat match goal with
               | |- _ /\ _ => split
               | |- True => exact I
               end.
    apply Optional_relocating. }
  split; [exact Hme |]. split; [reflexivity |]. split; [exact Hw |].
  split; [reflexivity |].
  exact (iterateFields_from_top (reflection := reflection)
           false None ProfileFields "me" _ Hme eq_refl Hw eq_refl).
Defined.

Lemma jsonFieldsR_through_pointer_witness :
  jsonFieldsR client []
  = Ok (["id"; "Title"; ""; "Live"],
        set_queryFields client (Some ["id"; "Title"; ""; "Live"]),
        [Derived])
  /\ jsonFieldsR (set_queryFields client (Some ["id"; "Title"; ""; "Live"]))
       [Derived; Derived]
     = Ok (["id"; "Title"; ""; "Live"],
           set_queryFields client (Some ["id"; "Title"; ""; "Live"]),
           [Derived; Derived]).
Proof.
  split; [reflexivity |].
  exact (proj1 (proj2 (jsonFieldsR_through_pointer
                         (collection := Sample.collection)
                         client _ _ [] _ eq_refl)) [Derived; Derived]).
Defined.


Lemma operations_panic_on_unsupported_witness :
  typeOfR (Collection := brokenCollection) = Some Broken
  /\ supportedStruct Broken = false
  /\ queryFields client = None
  /\ exists v,
       Insert (collection := brokenCollection)
         (transport := brokenTransport) client tt "" [] = Panic v
       /\ Items (collection := brokenCollection)
            (transport := brokenTransport) client tt [] [] = Panic v.
Proof.
  split; [reflexivity |]. split; [reflexivity |]. split; [reflexivity |].
  destruct (operations_panic_on_unsupported_model
              (collection := brokenCollection)
              (transport := brokenTransport)
              client tt "" ∅ 42%Z [] Broken [] eq_refl eq_refl eq_refl)
    as (v & Hinsert & _ & _ & _ & _ & Hitems).
  exists v. split; [exact Hinsert | exact Hitems].
Defined.

Lemma Items_nil_map_witness :
  asKeyValue (Collection := nilQueryCollection) pageQuery (Version_ client)
  = None
  /\ jsonFieldsR (collection := nilQueryCollection) client []
     = Ok (["id"; "Title"; ""; "Live"],
           set_queryFields client (Some ["id"; "Title"; ""; "Live"]),
           [Derived])
  /\ Items (collection := nilQueryCollection)
       (transport := nilQueryTransport) client tt pageQuery []
     = Panic "assignment to entry in nil map".
Proof.
  split; [reflexivity |]. split; [reflexivity |].
  exact (Items_nil_map_panics (collection := nilQueryCollection)
           (transport := nilQueryTransport)
           client _ tt pageQuery _ [] _ eq_refl eq_refl).
Defined.

Lemma operations_wrap_errors_witness :
  exists a err tr',
    GetByID client tt 42%Z []
    = Ok (a, Some (Errorf "execute get by id request" err), tr').
Proof.
  assert (Hrun : exists a e tr',
            GetByID client tt 42%Z [] = Ok (a, Some e, tr')).
  { vm_compute. eexists _, _, _. reflexivity. }
  destruct Hrun as (a & e & tr' & Hrun).
  destruct (proj1 (proj2 (proj2 (proj2
              (operations_wrap_errors (collection := Sample.collection)
                 (transport := Sample.transport)
                 client tt "" ∅ 42%Z [] "" "" []))))
              a e tr' Hrun) as [err ->].
  exists a, err, tr'. exact Hrun.
Defined.

Lemma structFields_nested_paths_witness :
  Lookup [("json", "stamp")] tagName = None
  /\ "Stamp" <> ""
  /\ forallb (fun g => leafType (Type_ g) || timeField g) StampFields = true
  /\ structFields (mkField "Stamp" [("json", "stamp")] Stamp) ""
     = Ok ["Stamp"; "Stamp.Note"].
Proof.
  assert (Hname : "Stamp" <> "") by discriminate.
  split; [reflexivity |]. split; [exact Hname |]. split; [reflexivity |].
  exact (structFields_nested_paths (reflection := reflection)
           "Stamp" [("json", "stamp")] StampFields "" eq_refl Hname eq_refl).
Defined.
